(** * Emotion & Sentiment Analyzer: the text preprocessor and the prediction
      orchestrator of [app.py], embedded in Rocq.

    Python strings are sequences of Unicode code points; the program's
    regular expressions and [str] methods work on code points, so a
    character is a code point ([N]) and a string a list of them. *)

From Stdlib Require Import QArith Ascii String.
From stdpp Require Import gmap strings list.

Open Scope N_scope.

(** ** Python strings *)

Abbreviation char := N (only parsing).
Abbreviation str := (list N) (only parsing).

(** String literals of the source, as code points. *)
Definition char_of_ascii (a : ascii) : char := N_of_ascii a.

Fixpoint str_of (s : string) : str :=
  match s with
  | EmptyString => []
  | String a s' => char_of_ascii a :: str_of s'
  end.

Definition SPACE : char := 32.
Definition COLON : char := 58.

(** [a-z] and [A-Z] of the regular expressions (ASCII ranges). *)
Definition is_az (c : char) : bool := (97 <=? c) && (c <=? 122).
Definition is_AZ (c : char) : bool := (65 <=? c) && (c <=? 90).

(** [\s] of a str pattern and the separators of [str.split()]: the code
    points for which [str.isspace] holds. *)
Definition isspace (c : char) : bool :=
  ((9 <=? c) && (c <=? 13)) || ((28 <=? c) && (c <=? 32))
  || (c =? 133) || (c =? 160) || (c =? 5760)
  || ((8192 <=? c) && (c <=? 8202))
  || (c =? 8232) || (c =? 8233) || (c =? 8239) || (c =? 8287) || (c =? 12288).

(** The characters that survive the last substitution of the normalizer. *)
Definition plain (c : char) : bool := is_az c || isspace c.

(** *** The Unicode character database

    [str.lower] and [str.capitalize] map ASCII letters by offset; every other
    code point goes through the case tables of the Unicode database, which
    are not part of the program and are taken as a parameter.  Capital sigma
    (U+03A3) is lower-cased by context. *)
Record unicode_db := UnicodeDb {
  to_lower_full : char -> str;
  to_title_full : char -> str;
  final_sigma : str -> str -> bool
}.

Definition SIGMA : char := 931.

Definition lower_char (U : unicode_db) (before : str) (c : char) (after : str) : str :=
  if c <? 128 then (if is_AZ c then [c + 32] else [c])
  else if c =? SIGMA then [if final_sigma U before after then 962 else 963]
  else to_lower_full U c.

(** The loop of [str.lower]: each character with what stands before and
    after it. *)
Fixpoint lower_from (U : unicode_db) (before : str) (s : str) : str :=
  match s with
  | [] => []
  | c :: rest => lower_char U before c rest ++ lower_from U (before ++ [c]) rest
  end.

Definition lower (U : unicode_db) (s : str) : str := lower_from U [] s.

Definition title_char (U : unicode_db) (c : char) : str :=
  if c <? 128 then (if is_az c then [c - 32] else [c]) else to_title_full U c.

(** [str.capitalize]: the first character title-cased, the rest lower-cased. *)
Definition capitalize (U : unicode_db) (s : str) : str :=
  match s with
  | [] => []
  | c :: rest => title_char U c ++ lower_from U [c] rest
  end.

(** [text.replace(":", " ")]. *)
Definition replace_colon (s : str) : str :=
  map (fun c => if c =? COLON then SPACE else c) s.

(** [text.split()]: maximal runs of non-whitespace characters. *)
Fixpoint split_from (cur : str) (s : str) : list str :=
  match s with
  | [] => match cur with [] => [] | _ => [cur] end
  | c :: rest =>
      if isspace c
      then match cur with [] => split_from [] rest | _ => cur :: split_from [] rest end
      else split_from (cur ++ [c]) rest
  end.

Definition split (s : str) : list str := split_from [] s.

(** [' '.join(words)]. *)
Fixpoint join (words : list str) : str :=
  match words with
  | [] => []
  | [w] => w
  | w :: ws => w ++ SPACE :: join ws
  end.

(** ** The two substitutions of the normalizer *)

(** [re.sub(r"([a-z])([A-Z])", r"\1 \2", text)]: matches are found left to
    right and do not overlap. *)
Fixpoint camel_split (s : str) : str :=
  match s with
  | a :: (b :: rest) as tl =>
      if is_az a && is_AZ b then a :: SPACE :: b :: camel_split rest
      else a :: camel_split tl
  | _ => s
  end.

(** [re.sub(r'[^a-z\s]', '', text)]. *)
Definition strip_non_alpha (s : str) : str := filter (fun c => Is_true (plain c)) s.

(** ** The collaborators of the program

    The emoji name database, the Unicode database, WordNet, the stop-word
    list of scikit-learn and the three pickled artifacts are loaded by the
    program, not defined by it: the program is a function of them. *)

(** A WordNet lemma: its name and the names of the lemmas [antonyms()]
    returns, in order. *)
Record Lemma := mkLemma {
  lemma_name : str;
  lemma_antonyms : list str
}.

Record Synset := mkSynset {
  synset_lemmas : list Lemma
}.

Record env := Env {
  (** [emoji.demojize] *)
  demojize : str -> str;
  unicode : unicode_db;
  (** [wordnet.synsets] *)
  synsets : str -> list Synset;
  (** The order in which a set of strings is iterated, given the strings in
      the order they were added to the empty set.  It follows the hashes of
      the strings, which the interpreter fixes when it starts. *)
  set_iter : list str -> list str;
  ENGLISH_STOP_WORDS : gset str;
  (** [vectorizer.transform([text]).toarray()], the one row of it *)
  vectorizer_transform : str -> list Q;
  (** [model.predict(rows)[0]] *)
  model_predict : list Q -> list Q;
  (** [label_encoder.classes_] *)
  classes_ : list str
}.

(** A Python value handed to [preprocess_text]: a string or anything else. *)
Inductive value :=
  | Str (s : str)
  | NotStr.

(** ** Module-level tables of the program *)

Definition sentiment_mapping : gmap str str :=
  list_to_map [
    (str_of "sad", str_of "Negative");
    (str_of "fear", str_of "Negative");
    (str_of "anger", str_of "Negative");
    (str_of "love", str_of "Positive");
    (str_of "joy", str_of "Positive");
    (str_of "surprise", str_of "Neutral")
  ].

Definition negation_words : gset str :=
  list_to_set (map str_of ["not"; "no"; "never"; "none"; "nothing"; "nobody";
                           "neither"; "nowhere"; "without"]%string).

(** Truth value of a string in a condition: the empty string is false. *)
Definition truthy (s : str) : bool :=
  match s with [] => false | _ => true end.

(** State of the loop of [preprocess_text]. *)
Record loop_state := LoopState {
  negate : bool;
  processed_words : list str
}.

(** [np.argmax] over one row: the scan keeps the first of the largest values
    (a later value replaces the current one only when it is not [<=] it). *)
Fixpoint argmax_from (max_ind : nat) (mp : Q) (i : nat) (ip : list Q) : nat :=
  match ip with
  | [] => max_ind
  | x :: ip' =>
      if Qle_bool x mp then argmax_from max_ind mp (S i) ip'
      else argmax_from i x (S i) ip'
  end.

Definition np_argmax (prediction : list Q) : option nat :=
  match prediction with
  | [] => None
  | x :: rest => Some (argmax_from 0 x 1 rest)
  end.

Section Program.
Variable E : env.

(** Lines 60-63 of [preprocess_text]: the text before it is split. *)
Definition normalize (text : str) : str :=
  let text := demojize E text in
  let text := lower (unicode E) (replace_colon text) in
  let text := camel_split text in
  strip_non_alpha text.

(** The strings [get_antonym] adds to its set, in the order of the two
    loops. *)
Definition antonyms_added (word : str) : list str :=
  flat_map (fun syn =>
    flat_map (fun lemma =>
      match lemma_antonyms lemma with
      | a :: _ => [lower (unicode E) a]
      | [] => []
      end) (synset_lemmas syn)) (synsets E word).

(** [next(iter(antonyms), None)] *)
Definition get_antonym (word : str) : option str :=
  head (set_iter E (antonyms_added word)).

Definition neg_ (word : str) : str := str_of "neg_" ++ word.

(** One iteration of the loop of [preprocess_text]. *)
Definition loop_body (st : loop_state) (word : str) : loop_state :=
  if decide (word ∈ negation_words) then
    LoopState true (processed_words st)
  else if negate st then
    match get_antonym word with
    | Some antonym =>
        if truthy antonym && negb (bool_decide (antonym ∈ ENGLISH_STOP_WORDS E))
        then LoopState false (processed_words st ++ [antonym])
        else LoopState false (processed_words st ++ [neg_ word])
    | None => LoopState false (processed_words st ++ [neg_ word])
    end
  else
    if decide (word ∉ ENGLISH_STOP_WORDS E)
    then LoopState false (processed_words st ++ [word])
    else st.

Definition run_loop (st : loop_state) (words : list str) : loop_state :=
  foldl loop_body st words.

(** The tokens of an already normalized text. *)
Definition tokenize (text : str) : list str :=
  processed_words (run_loop (LoopState false []) (split text)).

Definition preprocess_text (text : value) : str :=
  match text with
  | NotStr => []
  | Str text => join (tokenize (normalize text))
  end.

Definition sentiment_of (predicted_emotion : str) : str :=
  default (str_of "Neutral") (sentiment_mapping !! lower (unicode E) predicted_emotion).

(** [predict_emotion]; [None] when an index is out of range or the row is
    empty (the program raises).  The vectorizer and the classifier are taken
    as functions that return: an exception raised inside
    [vectorizer.transform] or [model.predict] has no counterpart here. *)
Definition predict_emotion (text : value) : option (str * str * list Q) :=
  let clean_text := preprocess_text text in
  let vectorized_text := vectorizer_transform E clean_text in
  let prediction := model_predict E vectorized_text in
  predicted_index ← np_argmax prediction;
  predicted_emotion ← classes_ E !! predicted_index;
  let predicted_sentiment := sentiment_of predicted_emotion in
  Some (capitalize (unicode E) predicted_emotion, predicted_sentiment, prediction).

End Program.

(** ** A reference environment

    Small stand-ins for the collaborators, on which the program can be run:
    an emoji table of three glyphs, case tables for two code points (Kelvin
    sign and capital I with dot), a lexical database of three words, a dozen
    stop-words, a four-word vocabulary and a two-row classifier. *)

Definition emoji_table : list (char * str) :=
  [(128512, str_of "grinning_face"); (128077, str_of "thumbs_up");
   (128546, str_of "crying_face")].

Fixpoint emoji_name (table : list (char * str)) (c : char) : option str :=
  match table with
  | [] => None
  | (e, name) :: table' => if c =? e then Some name else emoji_name table' c
  end.

(** Each glyph of the table becomes its name between colons. *)
Definition demojize_with (table : list (char * str)) (s : str) : str :=
  flat_map (fun c =>
    match emoji_name table c with
    | Some name => COLON :: name ++ [COLON]
    | None => [c]
    end) s.

Definition unicode_ref : unicode_db :=
  UnicodeDb
    (fun c => if c =? 8490 then [107] else if c =? 304 then [105; 775] else [c])
    (fun c => [c])
    (fun before after =>
       match before, after with
       | _ :: _, [] => true
       | _, _ => false
       end).

Definition synsets_ref (word : str) : list Synset :=
  if decide (word = str_of "good") then
    [mkSynset [mkLemma (str_of "good") [str_of "evil"]];
     mkSynset [mkLemma (str_of "good") [str_of "bad"];
               mkLemma (str_of "goodness") [str_of "badness"]]]
  else if decide (word = str_of "happy") then
    [mkSynset [mkLemma (str_of "happy") [str_of "unhappy"]]]
  else if decide (word = str_of "up") then
    [mkSynset [mkLemma (str_of "up") [str_of "down"]]]
  else [].

Definition stop_words_ref : gset str :=
  list_to_set (map str_of ["i"; "am"; "the"; "is"; "a"; "an"; "of"; "not"; "no";
                           "never"; "down"; "very"]%string).

Definition vocabulary_ref : list str :=
  map str_of ["bad"; "evil"; "happy"; "unhappy"]%string.

Definition vectorizer_ref (text : str) : list Q :=
  map (fun v => if bool_decide (v ∈ split text) then 1%Q else 0%Q) vocabulary_ref.

Definition model_ref (row : list Q) : list Q :=
  match row with
  | b :: e :: _ =>
      if Qle_bool 1 b || Qle_bool 1 e
      then [2 # 5; 1 # 10; 0; 0; 2 # 5; 1 # 10]%Q
      else [1 # 10; 1 # 10; 2 # 5; 2 # 5; 0; 0]%Q
  | _ => []
  end.

Definition classes_ref : list str :=
  map str_of ["anger"; "fear"; "joy"; "love"; "sad"; "surprise"]%string.

(** Iteration in the order of insertion ... *)
Definition env_ref : env :=
  Env (demojize_with emoji_table) unicode_ref synsets_ref remove_dups
      stop_words_ref vectorizer_ref model_ref classes_ref.

(** ... and in the opposite order: the same artifacts under another hashing
    of strings. *)
Definition env_ref' : env :=
  Env (demojize_with emoji_table) unicode_ref synsets_ref (fun l => reverse (remove_dups l))
      stop_words_ref vectorizer_ref model_ref classes_ref.

(** The artifacts loaded a second time, in another interpreter process: the
    same tables, listed in another order, and sets iterated in the opposite
    order. *)
Definition env_reloaded : env :=
  Env (demojize_with (reverse emoji_table)) unicode_ref synsets_ref
      (fun l => reverse (remove_dups l))
      (list_to_set (reverse (map str_of ["i"; "am"; "the"; "is"; "a"; "an"; "of"; "not";
                                         "no"; "never"; "down"; "very"]%string)))
      vectorizer_ref model_ref classes_ref.

(** ** Contracts of the collaborators *)

(** Lower-casing a code point outside ASCII never yields an ASCII capital. *)
Definition lower_yields_no_capital (U : unicode_db) : Prop :=
  ∀ c d, 128 <= c → d ∈ to_lower_full U c → is_AZ d = false.

(** White space outside ASCII has no case. *)
Definition lower_keeps_space (U : unicode_db) : Prop :=
  ∀ c, 128 <= c → isspace c = true → to_lower_full U c = [c].

(** A text of lowercase letters and white space holds no emoji. *)
Definition demojize_keeps_plain (E : env) : Prop :=
  ∀ s, Forall (fun c => plain c = true) s → demojize E s = s.

(** Iterating a set yields its elements. *)
Definition set_iter_lists_elements (E : env) : Prop :=
  ∀ l x, x ∈ set_iter E l ↔ x ∈ l.

(** Two environments with the same artifacts and libraries, each compared
    by what it returns: the emoji and Unicode tables, the lexical database,
    the stop-words, the vectorizer, the classifier and the label table.  The
    order in which sets are iterated is left free. *)
Record same_artifacts (E1 E2 : env) : Prop := SameArtifacts {
  same_demojize : ∀ s, demojize E1 s = demojize E2 s;
  same_lower : ∀ c, to_lower_full (unicode E1) c = to_lower_full (unicode E2) c;
  same_title : ∀ c, to_title_full (unicode E1) c = to_title_full (unicode E2) c;
  same_sigma : ∀ before after,
    final_sigma (unicode E1) before after = final_sigma (unicode E2) before after;
  same_synsets : ∀ word, synsets E1 word = synsets E2 word;
  same_stop_words : ENGLISH_STOP_WORDS E1 = ENGLISH_STOP_WORDS E2;
  same_vectorizer : ∀ text, vectorizer_transform E1 text = vectorizer_transform E2 text;
  same_model : ∀ row, model_predict E1 row = model_predict E2 row;
  same_classes : classes_ E1 = classes_ E2
}.

(** The words the loop meets with the flag set, the flag being [flag] at
    the start: those that follow a trigger directly and are no triggers
    themselves.  They are the words [get_antonym] is called on. *)
Fixpoint negated_words (flag : bool) (words : list str) : list str :=
  match words with
  | [] => []
  | word :: words' =>
      if decide (word ∈ negation_words) then negated_words true words'
      else (if flag then [word] else []) ++ negated_words false words'
  end.

(** The words of a text that [get_antonym] is called on. *)
Definition negated_words_of (E : env) (text : value) : list str :=
  match text with
  | NotStr => []
  | Str s => negated_words false (split (normalize E s))
  end.

(** The lexical database gives the word at most one antonym. *)
Definition one_antonym_at_most (E : env) (word : str) : Prop :=
  ∀ a b, a ∈ antonyms_added E word → b ∈ antonyms_added E word → a = b.

(** A token comes from a word: it is the word, the marked word or what
    [get_antonym] returns for it. *)
Definition derived_from (E : env) (word token : str) : Prop :=
  token = word ∨ token = neg_ word ∨ get_antonym E word = Some token.

(** ** The page (lines 95-197)

    The script runs from top to bottom on every interaction.  What it keeps
    between runs is [st.session_state] and the feedback collection; what a
    run reads from the widgets is its input; what it writes to the page is
    its output. *)

(** A value of [st.session_state] or of a feedback document. *)
Inductive sval :=
  | SStr (s : str)
  | SBool (b : bool).

#[global] Instance sval_eq_dec : EqDecision sval.
Proof. solve_decision. Defined.

(** Truth value of a stored value in a condition. *)
Definition truthy_val (v : sval) : bool :=
  match v with
  | SStr s => truthy s
  | SBool b => b
  end.

(** [s.strip()]: white space removed at both ends. *)
Fixpoint lstrip (s : str) : str :=
  match s with
  | [] => []
  | c :: rest => if isspace c then lstrip rest else s
  end.

Definition strip (s : str) : str := reverse (lstrip (reverse (lstrip s))).

(** [save_feedback]: one document handed to [collection.insert_one]; the
    collection is the sequence of the documents inserted. *)
Definition save_feedback (collection : list (gmap string sval))
    (text predicted actual : sval) : list (gmap string sval) :=
  let feedback_data : gmap string sval :=
    <["Actual" := actual]> (<["Predicted" := predicted]> {["Text" := text]}) in
  collection ++ [feedback_data].

(** What a run writes to the page. *)
Inductive ui :=
  | Warning
  | EmotionCard (emotion : str)
  | SentimentCard (color sentiment : str)
  | SidebarHeader
  | SidebarEntry (label : str) (prob : Q)
  | FeedbackPrompt
  | ThanksCorrection
  | ThanksConfirmed
  | AlreadySubmitted.

(** What a run reads from the widgets: the text area, the three buttons,
    the radio and the select box. *)
Record widgets := Widgets {
  user_input : str;
  analyze_button : bool;
  feedback_radio : str;
  correction_select : str;
  submit_correction : bool;
  submit_confirmed : bool
}.

(** [session_state] is the part of [st.session_state] the script itself
    reads and assigns, the keys last_user_input, last_predicted_emotion and
    feedback_submitted; the entries Streamlit keeps there for the keyed
    widgets (feedback_radio, correction_select) are input of a run, in
    [widgets], and not part of it. *)
Record world := World {
  session_state : gmap string sval;
  collection : list (gmap string sval)
}.

Inductive error :=
  | InferenceError
  | AttributeError (key : string).

(** A run ends at the bottom of the script or where an exception is raised;
    the state written until then stays. *)
Record outcome := Outcome {
  after : world;
  shown : list ui;
  raised : option error
}.

(** [if key not in st.session_state: st.session_state.key = v] *)
Definition set_default (key : string) (v : sval) (ss : gmap string sval)
    : gmap string sval :=
  match ss !! key with
  | Some _ => ss
  | None => <[key := v]> ss
  end.

Definition sentiment_color (sentiment : str) : str :=
  if decide (sentiment = str_of "Positive") then str_of "#2ecc71"
  else if decide (sentiment = str_of "Negative") then str_of "#e74c3c"
  else str_of "#f1c40f".

Section Page.
Variable E : env.

(** Lines 138-170. *)
Definition analyze (ss : gmap string sval) (user_input : str)
    : error + (gmap string sval * list ui) :=
  if decide (strip user_input = []) then inr (ss, [Warning])
  else
    match predict_emotion E (Str user_input) with
    | None => inl InferenceError
    | Some (emotion, sentiment, probs) =>
        let ss := <["last_user_input" := SStr user_input]> ss in
        let ss := <["last_predicted_emotion" := SStr emotion]> ss in
        let ss := <["feedback_submitted" := SBool false]> ss in
        inr (ss,
             [EmotionCard emotion;
              SentimentCard (sentiment_color sentiment) sentiment;
              SidebarHeader]
             ++ map (fun entry => SidebarEntry (capitalize (unicode E) entry.1) entry.2)
                  (zip (classes_ E) probs))
    end.

(** Lines 173-197. *)
Definition feedback_section (w : world) (shown : list ui) (i : widgets) : outcome :=
  match session_state w !! "last_user_input" with
  | None => Outcome w shown (Some (AttributeError "last_user_input"))
  | Some last =>
      if decide (last = SStr []) then Outcome w shown None
      else
        let shown := shown ++ [FeedbackPrompt] in
        match session_state w !! "feedback_submitted" with
        | None => Outcome w shown (Some (AttributeError "feedback_submitted"))
        | Some submitted =>
            if truthy_val submitted then Outcome w (shown ++ [AlreadySubmitted]) None
            else if decide (feedback_radio i = str_of "No") then
              if submit_correction i then
                match session_state w !! "last_predicted_emotion" with
                | None =>
                    Outcome w shown (Some (AttributeError "last_predicted_emotion"))
                | Some predicted =>
                    Outcome
                      (World (<["feedback_submitted" := SBool true]> (session_state w))
                         (save_feedback (collection w) last predicted
                            (SStr (correction_select i))))
                      (shown ++ [ThanksCorrection]) None
                end
              else Outcome w shown None
            else if submit_confirmed i then
              Outcome
                (World (<["feedback_submitted" := SBool true]> (session_state w))
                   (collection w))
                (shown ++ [ThanksConfirmed]) None
            else Outcome w shown None
        end
  end.

(** One run of the script, lines 131-197. *)
Definition page_run (w : world) (i : widgets) : outcome :=
  let ss := set_default "last_user_input" (SStr []) (session_state w) in
  let ss := set_default "feedback_submitted" (SBool false) ss in
  match (if analyze_button i then analyze ss (user_input i) else inr (ss, [])) with
  | inl e => Outcome (World ss (collection w)) [] (Some e)
  | inr (ss, shown) => feedback_section (World ss (collection w)) shown i
  end.

(** The runs of one browser session, one after the other. *)
Definition page_runs (w : world) (inputs : list widgets) : world :=
  foldl (fun w i => after (page_run w i)) w inputs.

(** What the session state may hold: a last input that is a string and, when
    it is not empty, is not blank and comes with the emotion predicted for
    it; a feedback flag that is a boolean. *)
Definition session_ok (ss : gmap string sval) : Prop :=
  (∀ v, ss !! "last_user_input" = Some v →
     ∃ last, v = SStr last
       ∧ (last ≠ [] →
          strip last ≠ []
          ∧ ∃ emotion sentiment probs,
              predict_emotion E (Str last) = Some (emotion, sentiment, probs)
              ∧ ss !! "last_predicted_emotion" = Some (SStr emotion)))
  ∧ (∀ v, ss !! "feedback_submitted" = Some v → ∃ b, v = SBool b).

(** A feedback document: a text that was analysed, the emotion predicted
    for it and the emotion chosen in the select box. *)
Definition feedback_ok (doc : gmap string sval) : Prop :=
  ∃ text emotion sentiment probs actual,
    doc = <["Actual" := SStr actual]>
            (<["Predicted" := SStr emotion]> {["Text" := SStr text]})
    ∧ strip text ≠ []
    ∧ predict_emotion E (Str text) = Some (emotion, sentiment, probs).

(** The last input kept in the session state, when it is not empty, is the
    text of one of the runs [past] in which Analyze was pressed. *)
Definition session_from (past : list widgets) (ss : gmap string sval) : Prop :=
  ∀ last, ss !! "last_user_input" = Some (SStr last) → last ≠ [] →
    ∃ j, j ∈ past ∧ analyze_button j = true ∧ user_input j = last.

(** A feedback document that comes from the runs [past]: its text is the
    text of a run [j] in which Analyze was pressed, its prediction the
    emotion predicted for that text, and its correction the value of the
    select box in a run [i] in which the radio was on "No" and the
    correction button pressed. *)
Definition feedback_from (past : list widgets) (doc : gmap string sval) : Prop :=
  ∃ j i emotion sentiment probs,
    j ∈ past ∧ i ∈ past
    ∧ analyze_button j = true
    ∧ strip (user_input j) ≠ []
    ∧ predict_emotion E (Str (user_input j)) = Some (emotion, sentiment, probs)
    ∧ feedback_radio i = str_of "No"
    ∧ submit_correction i = true
    ∧ doc = <["Actual" := SStr (correction_select i)]>
              (<["Predicted" := SStr emotion]> {["Text" := SStr (user_input j)]}).

End Page.


(** What one iteration may append for a word: the word itself when it is
    neither a trigger nor a stop-word, the marked word, or a non-empty
    antonym that is no stop-word. *)
Definition emitted (E : env) (word token : str) : Prop :=
  (token = word ∧ (word ∉ negation_words) ∧ (word ∉ ENGLISH_STOP_WORDS E))
  ∨ token = neg_ word
  ∨ (get_antonym E word = Some token ∧ token ≠ [] ∧ token ∉ ENGLISH_STOP_WORDS E).

(** [str.lower] on one ASCII character. *)
Definition ascii_lower (c : char) : char := if is_AZ c then c + 32 else c.

Example run_ref_1 :
  preprocess_text env_ref (Str (str_of "I am NOT happy:")) = str_of "unhappy".
Proof. vm_compute. reflexivity. Qed.


(** * Properties *)

(** ** Characters and strings *)

Lemma is_AZ_inv c : is_AZ c = true → 65 <= c <= 90.
Proof. unfold is_AZ. rewrite andb_true_iff, !N.leb_le. lia. Qed.

Lemma is_az_inv c : is_az c = true → 97 <= c <= 122.
Proof. unfold is_az. rewrite andb_true_iff, !N.leb_le. lia. Qed.

Lemma is_az_not_AZ c : is_az c = true → is_AZ c = false.
Proof.
  intros H%is_az_inv. unfold is_AZ.
  apply andb_false_iff. right. apply N.leb_gt. lia.
Qed.

Lemma isspace_ascii c :
  c < 128 → isspace c = true → 9 <= c <= 13 ∨ 28 <= c <= 32.
Proof.
  intros Hc. unfold isspace.
  rewrite !orb_true_iff, !andb_true_iff, !N.leb_le, !N.eqb_eq. lia.
Qed.

Lemma isspace_not_AZ c : isspace c = true → is_AZ c = false.
Proof.
  unfold isspace, is_AZ.
  rewrite !orb_true_iff, !andb_true_iff, !N.leb_le, !N.eqb_eq.
  intros H. apply andb_false_iff. rewrite !N.leb_gt. lia.
Qed.

Lemma plain_not_AZ c : plain c = true → is_AZ c = false.
Proof.
  unfold plain. intros [H|H]%orb_true_iff;
    [by apply is_az_not_AZ | by apply isspace_not_AZ].
Qed.

Lemma plain_not_colon c : plain c = true → c ≠ COLON.
Proof. intros H ->. vm_compute in H. discriminate. Qed.

Lemma plain_not_sigma c : plain c = true → c ≠ SIGMA.
Proof. intros H ->. vm_compute in H. discriminate. Qed.

Lemma plain_ascii_or_space c :
  plain c = true → c < 128 ∨ (128 <= c ∧ isspace c = true).
Proof.
  unfold plain. intros [H%is_az_inv|H]%orb_true_iff; [lia|].
  destruct (N.lt_ge_cases c 128); auto.
Qed.

(** *** [str.lower] *)

Lemma lower_char_no_capital U before c after :
  lower_yields_no_capital U →
  Forall (fun d => is_AZ d = false) (lower_char U before c after).
Proof.
  intros HU. unfold lower_char.
  destruct (N.ltb_spec c 128) as [Hc|Hc].
  - destruct (is_AZ c) eqn:Hup; repeat constructor; [|done].
    apply is_AZ_inv in Hup. unfold is_AZ.
    apply andb_false_iff. right. apply N.leb_gt. lia.
  - destruct (N.eqb_spec c SIGMA) as [->|_].
    + by destruct (final_sigma U before after); repeat constructor.
    + apply Forall_forall. intros d Hd. by apply (HU c).
Qed.

Lemma lower_from_no_capital U before s :
  lower_yields_no_capital U →
  Forall (fun d => is_AZ d = false) (lower_from U before s).
Proof.
  intros HU. revert before.
  induction s as [|c rest IH]; intros before; simpl; [constructor|].
  apply Forall_app. split; [by apply lower_char_no_capital | apply IH].
Qed.

Lemma lower_char_plain U before c after :
  lower_keeps_space U → plain c = true → lower_char U before c after = [c].
Proof.
  intros HU Hp. unfold lower_char.
  destruct (N.ltb_spec c 128) as [Hc|Hc].
  - by rewrite (plain_not_AZ c Hp).
  - destruct (N.eqb_spec c SIGMA) as [->|_]; [by apply plain_not_sigma in Hp|].
    destruct (plain_ascii_or_space c Hp) as [?|[_ Hs]]; [lia|].
    by apply HU.
Qed.

Lemma lower_from_plain U before s :
  lower_keeps_space U →
  Forall (fun c => plain c = true) s → lower_from U before s = s.
Proof.
  intros HU Hs. revert before.
  induction Hs as [|c rest Hc _ IH]; intros before; simpl; [done|].
  by rewrite lower_char_plain, IH.
Qed.

(** *** The substitutions *)

Lemma camel_split_no_capital s :
  Forall (fun d => is_AZ d = false) s → camel_split s = s.
Proof.
  induction s as [|a tl IH]; [done|].
  intros Hs. apply Forall_cons in Hs as [_ Htl].
  destruct tl as [|b rest]; [done|].
  pose proof Htl as [Hb _]%Forall_cons.
  cbn [camel_split]. rewrite Hb, andb_false_r.
  f_equal. by apply IH.
Qed.

Lemma strip_non_alpha_plain s :
  Forall (fun c => plain c = true) (strip_non_alpha s).
Proof.
  apply Forall_forall. intros c Hc.
  apply list_elem_of_filter in Hc as [Hc _]. by apply Is_true_true.
Qed.

Lemma strip_non_alpha_fixes_plain s :
  Forall (fun c => plain c = true) s → strip_non_alpha s = s.
Proof.
  unfold strip_non_alpha.
  induction 1 as [|c rest Hc _ IH]; [done|].
  rewrite filter_cons_True by by apply Is_true_true. by rewrite IH.
Qed.

Lemma replace_colon_fixes_plain s :
  Forall (fun c => plain c = true) s → replace_colon s = s.
Proof.
  unfold replace_colon.
  induction 1 as [|c rest Hc _ IH]; [done|]. simpl. rewrite IH.
  destruct (N.eqb_spec c COLON) as [Heq|_]; [|done].
  by apply plain_not_colon in Hc.
Qed.

(** *** The reference environment meets the contracts *)

Lemma emoji_name_plain table c :
  Forall (fun entry => plain entry.1 = false) table →
  plain c = true → emoji_name table c = None.
Proof.
  intros Ht Hc. induction Ht as [|[e name] table' He _ IH]; [done|].
  simpl in *. destruct (N.eqb_spec c e) as [->|_]; [congruence|done].
Qed.

Lemma demojize_with_keeps_plain table s :
  Forall (fun entry => plain entry.1 = false) table →
  Forall (fun c => plain c = true) s → demojize_with table s = s.
Proof.
  intros Ht. unfold demojize_with.
  induction 1 as [|c rest Hc _ IH]; [done|].
  simpl. by rewrite (emoji_name_plain table c Ht Hc), IH.
Qed.

Lemma env_ref_demojize : demojize_keeps_plain env_ref.
Proof.
  intros s Hs. apply demojize_with_keeps_plain; [|done].
  by repeat constructor.
Qed.

Lemma unicode_ref_no_capital : lower_yields_no_capital unicode_ref.
Proof.
  intros c d Hc. simpl.
  destruct (c =? 8490); [|destruct (c =? 304)].
  - by intros ->%list_elem_of_singleton.
  - intros Hd. by repeat (apply elem_of_cons in Hd as [->|Hd]; [done|]);
      apply not_elem_of_nil in Hd.
  - intros ->%list_elem_of_singleton. unfold is_AZ.
    apply andb_false_iff. right. apply N.leb_gt. lia.
Qed.

Lemma unicode_ref_keeps_space : lower_keeps_space unicode_ref.
Proof.
  intros c _ Hs. simpl.
  destruct (N.eqb_spec c 8490) as [->|_]; [by vm_compute in Hs|].
  destruct (N.eqb_spec c 304) as [->|_]; [by vm_compute in Hs|done].
Qed.

(** ** The normalizer *)

Lemma normalize_plain (E : env) (text : str) :
  Forall (fun c => plain c = true) (normalize E text).
Proof. unfold normalize. apply strip_non_alpha_plain. Qed.

(** C2, as amended: for every input string the text left by the
    normalization phase (demojize, colon replacement, lower-casing,
    camel-case split, character strip) holds only lowercase letters a-z and
    white-space characters (whatever [\s] matches: space, tab, newline and
    the like), hence no uppercase letter and, within ASCII, nothing but
    the letters a-z and the white space of ASCII (9-13, 28-32): no digit, no
    punctuation; no emoji either, as none is white space. *)
Theorem normalize_alphabet (E : env) (text : str) :
  Forall (fun c => is_az c = true ∨ isspace c = true) (normalize E text)
  ∧ Forall (fun c => is_AZ c = false
                     ∧ (c < 128 → 97 <= c <= 122 ∨ 9 <= c <= 13 ∨ 28 <= c <= 32))
      (normalize E text).
Proof.
  split; (eapply Forall_impl; [apply normalize_plain|]); intros c Hc; cbn beta.
  - by apply orb_true_iff.
  - split; [by apply plain_not_AZ|]. intros Hascii.
    apply orb_true_iff in Hc as [Hc%is_az_inv|Hc]; [by left|].
    right. by apply isspace_ascii.
Qed.

(** C2 as stated fails: a tab of the input is white space for the strip and
    stays in the output, though it is neither a letter nor the space
    character; and two spaces in a row stay two spaces. *)
Lemma normalize_keeps_tab_and_runs :
  normalize env_ref [97; 9; 98] = [97; 9; 98]
  ∧ (is_az 9 || (9 =? SPACE)) = false
  ∧ normalize env_ref (str_of "a  b") = [97; SPACE; SPACE; 98].
Proof. by vm_compute. Qed.

(** C5: in the order of the program the camel-case substitution runs on the
    lower-cased text; that text holds no letter of [A-Z], so the
    substitution returns it unchanged, and the normalizer is the strip of the
    lower-cased text. *)
Theorem camel_split_after_lower_is_identity (E : env) (text : str) :
  lower_yields_no_capital (unicode E) →
  let lowered := lower (unicode E) (replace_colon (demojize E text)) in
  Forall (fun c => is_AZ c = false) lowered
  ∧ camel_split lowered = lowered
  ∧ normalize E text = strip_non_alpha lowered.
Proof.
  intros HU lowered.
  assert (Forall (fun c => is_AZ c = false) lowered) as Hlow
    by by apply lower_from_no_capital.
  split_and!; [done|by apply camel_split_no_capital|].
  unfold normalize. fold lowered. by rewrite camel_split_no_capital.
Qed.

Lemma camel_split_after_lower_is_identity_witness :
  lower_yields_no_capital (unicode env_ref)
  ∧ let lowered := lower (unicode env_ref)
                     (replace_colon (demojize env_ref (str_of "helloWorld: OK"))) in
    Forall (fun c => is_AZ c = false) lowered
    ∧ camel_split lowered = lowered
    ∧ normalize env_ref (str_of "helloWorld: OK") = strip_non_alpha lowered.
Proof.
  split; [exact unicode_ref_no_capital|].
  exact (camel_split_after_lower_is_identity env_ref (str_of "helloWorld: OK")
           unicode_ref_no_capital).
Defined.

(** C6: the normalization phase is idempotent, every output of it is a fixed
    point: [normalize (normalize x) = normalize x] for every string [x]. *)
Theorem normalize_idempotent (E : env) (x : str) :
  demojize_keeps_plain E →
  lower_keeps_space (unicode E) →
  normalize E (normalize E x) = normalize E x.
Proof.
  intros HD HU.
  pose proof (normalize_plain E x) as Hy.
  set (y := normalize E x) in *.
  unfold normalize at 1.
  rewrite (HD y Hy), (replace_colon_fixes_plain y Hy).
  unfold lower. rewrite (lower_from_plain _ _ y HU Hy).
  rewrite camel_split_no_capital
    by (eapply Forall_impl; [exact Hy|apply plain_not_AZ]).
  by apply strip_non_alpha_fixes_plain.
Qed.

Lemma normalize_idempotent_witness :
  demojize_keeps_plain env_ref
  ∧ lower_keeps_space (unicode env_ref)
  ∧ normalize env_ref (normalize env_ref [72; 105; 33; 9; 128512; 8490])
    = normalize env_ref [72; 105; 33; 9; 128512; 8490].
Proof.
  split_and!; [exact env_ref_demojize|exact unicode_ref_keeps_space|].
  exact (normalize_idempotent env_ref [72; 105; 33; 9; 128512; 8490]
           env_ref_demojize unicode_ref_keeps_space).
Defined.

Example normalize_ref_emoji :
  normalize env_ref [72; 105; 33; 9; 128512; 8490]
  = str_of "hi" ++ [9; SPACE] ++ str_of "grinningface k".
Proof. by vm_compute. Qed.

(** ** The tokenizer *)

Section Tokenizer.
Variable E : env.

Lemma loop_body_trigger st word :
  word ∈ negation_words →
  loop_body E st word = LoopState true (processed_words st).
Proof. intros Hw. unfold loop_body. by rewrite decide_True. Qed.

Lemma loop_body_plain st word :
  negate st = false → word ∉ negation_words →
  loop_body E st word =
    if decide (word ∈ ENGLISH_STOP_WORDS E) then st
    else LoopState false (processed_words st ++ [word]).
Proof.
  intros Hn Hw. unfold loop_body. rewrite decide_False, Hn by done.
  destruct (decide (word ∈ ENGLISH_STOP_WORDS E)).
  - by rewrite decide_False by auto.
  - by rewrite decide_True.
Qed.

Lemma run_loop_app st words1 words2 :
  run_loop E st (words1 ++ words2) = run_loop E (run_loop E st words1) words2.
Proof. apply foldl_app. Qed.

(** Each iteration leaves the tokens as they are or appends one token that
    comes from the word. *)
Lemma loop_body_emits st word :
  processed_words (loop_body E st word) = processed_words st
  ∨ ∃ token, derived_from E word token
      ∧ processed_words (loop_body E st word) = processed_words st ++ [token].
Proof.
  unfold loop_body, derived_from.
  destruct (decide (word ∈ negation_words)); [by left|].
  destruct (negate st).
  - right. destruct (get_antonym E word) as [antonym|] eqn:Ha.
    + destruct (truthy antonym && _); eauto 6.
    + eauto 6.
  - destruct (decide (word ∉ ENGLISH_STOP_WORDS E)); [right|left]; eauto.
Qed.

Lemma run_loop_in_order words : ∀ st,
  ∃ sources new,
    sources `sublist_of` words
    ∧ processed_words (run_loop E st words) = processed_words st ++ new
    ∧ Forall2 (derived_from E) sources new.
Proof.
  induction words as [|word words IH]; intros st.
  - exists [], []. by rewrite app_nil_r.
  - destruct (IH (loop_body E st word)) as (sources & new & Hsub & Hout & Hder).
    change (run_loop E st (word :: words))
      with (run_loop E (loop_body E st word) words).
    destruct (loop_body_emits st word) as [Hsame|(token & Htok & Hone)].
    + exists sources, new.
      split_and!; [by apply sublist_cons|by rewrite Hout, Hsame|done].
    + exists (word :: sources), (token :: new).
      split_and!; [by apply sublist_skip| |by constructor].
      rewrite Hout, Hone. by rewrite <- app_assoc.
Qed.

Lemma run_loop_plain words : ∀ out,
  Forall (fun word => word ∉ negation_words) words →
  run_loop E (LoopState false out) words
  = LoopState false (out ++ filter (fun word => word ∉ ENGLISH_STOP_WORDS E) words).
Proof.
  induction words as [|word words IH]; intros out Hws.
  - by rewrite app_nil_r.
  - apply Forall_cons in Hws as [Hw Hws].
    change (run_loop E ?st (word :: words))
      with (run_loop E (loop_body E st word) words).
    rewrite loop_body_plain by done. rewrite filter_cons.
    destruct (decide (word ∈ ENGLISH_STOP_WORDS E)).
    + rewrite decide_False by auto. by apply IH.
    + rewrite decide_True by done. cbn [processed_words].
      rewrite IH by done. by rewrite <- app_assoc.
Qed.

Lemma run_loop_triggers words : ∀ st,
  words ≠ [] → Forall (fun word => word ∈ negation_words) words →
  run_loop E st words = LoopState true (processed_words st).
Proof.
  induction words as [|word words IH]; intros st Hne Hws; [done|].
  apply Forall_cons in Hws as [Hw Hws].
  change (run_loop E st (word :: words))
    with (run_loop E (loop_body E st word) words).
  rewrite loop_body_trigger by done.
  destruct words as [|word' words']; [done|].
  by rewrite IH.
Qed.

End Tokenizer.

(** Under an iteration order that lists the elements of the set,
    [get_antonym] returns one of the collected antonyms, and nothing only
    when no lemma of the word has an antonym. *)
Lemma get_antonym_collected (E : env) (word : str) :
  set_iter_lists_elements E →
  (∀ antonym, get_antonym E word = Some antonym → antonym ∈ antonyms_added E word)
  ∧ (get_antonym E word = None ↔ antonyms_added E word = []).
Proof.
  intros Hiter. unfold get_antonym. split.
  - intros antonym Ha. apply (proj1 (Hiter _ antonym)).
    destruct (set_iter E _) as [|a l]; [done|].
    injection Ha as ->. by left.
  - destruct (set_iter E (antonyms_added E word)) as [|a l] eqn:Hl; cbn; split.
    + intros _. destruct (antonyms_added E word) as [|b added]; [done|].
      assert (b ∈ set_iter E (b :: added)) as Hb by (apply Hiter; by left).
      rewrite Hl in Hb. by apply not_elem_of_nil in Hb.
    + done.
    + done.
    + intros Hnil. rewrite Hnil in Hl.
      assert (a ∈ set_iter E []) as Hb by (rewrite Hl; by left).
      apply (proj1 (Hiter [] a)) in Hb. by apply not_elem_of_nil in Hb.
Qed.

(** C1: a word that reaches the negated branch (the flag is set and the word
    is no trigger) is replaced by its antonym when [get_antonym] returns a
    non-empty one that is no stop-word, and by the four characters "neg_"
    followed by the word in every other case; whether the word itself is a
    stop-word is never asked, so exactly one token is emitted, and the flag
    is false afterwards in both cases. *)
Theorem negated_word_rewritten (E : env) (st : loop_state) (word : str) :
  negate st = true →
  word ∉ negation_words →
  let st' := loop_body E st word in
  negate st' = false
  ∧ (∀ antonym,
       get_antonym E word = Some antonym → antonym ≠ [] →
       antonym ∉ ENGLISH_STOP_WORDS E →
       processed_words st' = processed_words st ++ [antonym])
  ∧ (get_antonym E word = None
     ∨ get_antonym E word = Some []
     ∨ (∃ antonym, get_antonym E word = Some antonym
                   ∧ antonym ∈ ENGLISH_STOP_WORDS E) →
     processed_words st' = processed_words st ++ [[110; 101; 103; 95] ++ word])
  ∧ length (processed_words st') = S (length (processed_words st)).
Proof.
  intros Hn Hw st'. subst st'. unfold loop_body.
  rewrite decide_False, Hn by done.
  change (neg_ word) with ([110; 101; 103; 95] ++ word).
  destruct (get_antonym E word) as [antonym|] eqn:Ha.
  - destruct (decide (antonym ∈ ENGLISH_STOP_WORDS E)) as [Hs|Hs].
    + rewrite (bool_decide_eq_true_2 _ Hs), andb_false_r. cbn.
      split_and!; [done| |done|by rewrite length_app, Nat.add_1_r].
      intros a [= <-] _ Hns. done.
    + rewrite (bool_decide_eq_false_2 _ Hs), andb_true_r.
      destruct antonym as [|c antonym]; cbn.
      * split_and!; [done| |done|by rewrite length_app, Nat.add_1_r].
        by intros a [= <-].
      * split_and!; [done| | |by rewrite length_app, Nat.add_1_r].
        -- by intros a [= <-].
        -- intros [?|[?|(a & [= <-] & ?)]]; done.
  - cbn. split_and!; [done|done|done|by rewrite length_app, Nat.add_1_r].
Qed.

(** The three outcomes on the reference environment: "happy" has the
    antonym "unhappy"; "the" is a stop-word without antonym; the antonym of
    "up" is the stop-word "down". *)
Lemma negated_word_rewritten_witness :
  (negate (LoopState true [str_of "glad"]) = true
   ∧ (str_of "happy" ∉ negation_words)
   ∧ get_antonym env_ref (str_of "happy") = Some (str_of "unhappy")
   ∧ (str_of "unhappy" ∉ ENGLISH_STOP_WORDS env_ref)
   ∧ negate (loop_body env_ref (LoopState true [str_of "glad"]) (str_of "happy")) = false
   ∧ processed_words (loop_body env_ref (LoopState true [str_of "glad"]) (str_of "happy"))
     = [str_of "glad"; str_of "unhappy"])
  ∧ ((str_of "the" ∉ negation_words)
     ∧ str_of "the" ∈ ENGLISH_STOP_WORDS env_ref
     ∧ get_antonym env_ref (str_of "the") = None
     ∧ negate (loop_body env_ref (LoopState true [str_of "glad"]) (str_of "the")) = false
     ∧ processed_words (loop_body env_ref (LoopState true [str_of "glad"]) (str_of "the"))
       = [str_of "glad"; str_of "neg_the"])
  ∧ ((str_of "up" ∉ negation_words)
     ∧ get_antonym env_ref (str_of "up") = Some (str_of "down")
     ∧ str_of "down" ∈ ENGLISH_STOP_WORDS env_ref
     ∧ negate (loop_body env_ref (LoopState true [str_of "glad"]) (str_of "up")) = false
     ∧ processed_words (loop_body env_ref (LoopState true [str_of "glad"]) (str_of "up"))
       = [str_of "glad"; str_of "neg_up"]).
Proof.
  assert (str_of "happy" ∉ negation_words) as Hhappy by compute_done.
  assert (str_of "the" ∉ negation_words) as Hthe by compute_done.
  assert (str_of "up" ∉ negation_words) as Hup by compute_done.
  assert (str_of "unhappy" ∉ ENGLISH_STOP_WORDS env_ref) as Hunhappy by compute_done.
  assert (str_of "the" ∈ ENGLISH_STOP_WORDS env_ref) as Hstop by compute_done.
  assert (str_of "down" ∈ ENGLISH_STOP_WORDS env_ref) as Hdown by compute_done.
  pose proof (negated_word_rewritten env_ref (LoopState true [str_of "glad"])
                (str_of "happy") eq_refl Hhappy) as (Hf1 & Ha1 & _ & _).
  pose proof (negated_word_rewritten env_ref (LoopState true [str_of "glad"])
                (str_of "the") eq_refl Hthe) as (Hf2 & _ & Hm2 & _).
  pose proof (negated_word_rewritten env_ref (LoopState true [str_of "glad"])
                (str_of "up") eq_refl Hup) as (Hf3 & _ & Hm3 & _).
  split; [|split].
  - split_and!; [reflexivity|exact Hhappy|reflexivity|exact Hunhappy|exact Hf1|].
    apply (Ha1 (str_of "unhappy")); done.
  - split_and!; [exact Hthe|exact Hstop|reflexivity|exact Hf2|].
    apply Hm2. by left.
  - split_and!; [exact Hup|reflexivity|exact Hdown|exact Hf3|].
    apply Hm3. right. right. by exists (str_of "down").
Defined.

(** The three outcomes of the negated branch, run: an antonym, a marked
    stop-word, and a marked word whose antonym is a stop-word. *)
Example negated_branch_ref :
  tokenize env_ref (str_of "not happy not the not up")
  = [str_of "unhappy"; str_of "neg_the"; str_of "neg_up"].
Proof. by vm_compute. Qed.

(** C3, as amended: a word of the trigger set emits nothing and sets the
    flag; so a trigger that ends the input adds no token (the tokens are
    those of the words before it), and an input made of triggers only, such
    as the single word "never", yields no token and an empty joined
    string. *)
Theorem trigger_word_consumed (E : env) :
  (∀ st word, word ∈ negation_words →
     loop_body E st word = LoopState true (processed_words st))
  ∧ (∀ st words word, word ∈ negation_words →
       processed_words (run_loop E st (words ++ [word]))
       = processed_words (run_loop E st words))
  ∧ (∀ text, Forall (fun word => word ∈ negation_words) (split text) →
       tokenize E text = [] ∧ join (tokenize E text) = [])
  ∧ tokenize E (str_of "never") = []
  ∧ (demojize E (str_of "never") = str_of "never" →
     preprocess_text E (Str (str_of "never")) = []).
Proof.
  split_and!.
  - intros st word. apply loop_body_trigger.
  - intros st words word Hw.
    rewrite run_loop_app. cbn [run_loop foldl].
    by rewrite loop_body_trigger.
  - intros text Hws. unfold tokenize.
    destruct (split text) as [|word words] eqn:Hsplit; [done|].
    by rewrite run_loop_triggers.
  - unfold tokenize.
    change (split (str_of "never")) with [str_of "never"].
    cbn [run_loop foldl]. by rewrite loop_body_trigger by compute_done.
  - intros Hd. unfold preprocess_text, normalize. rewrite Hd.
    change (strip_non_alpha _) with (str_of "never").
    unfold tokenize.
    change (split (str_of "never")) with [str_of "never"].
    cbn [run_loop foldl]. by rewrite loop_body_trigger by compute_done.
Qed.

Lemma trigger_word_consumed_witness :
  loop_body env_ref (LoopState false [str_of "happy"]) (str_of "never")
    = LoopState true [str_of "happy"]
  ∧ processed_words
      (run_loop env_ref (LoopState false []) ([str_of "happy"] ++ [str_of "never"]))
    = processed_words (run_loop env_ref (LoopState false []) [str_of "happy"])
  ∧ (tokenize env_ref (str_of "no not never") = []
     ∧ join (tokenize env_ref (str_of "no not never")) = [])
  ∧ preprocess_text env_ref (Str (str_of "never")) = [].
Proof.
  destruct (trigger_word_consumed env_ref) as (Hbody & Hlast & Honly & _ & Hnever).
  split_and!.
  - apply Hbody. compute_done.
  - apply Hlast. compute_done.
  - apply Honly. compute_done.
  - apply Honly. compute_done.
  - apply Hnever. reflexivity.
Defined.

(** C3 as stated fails: the last word of "happy never" is a trigger, and the
    token sequence is not empty; the token of "happy" is there. *)
Lemma trailing_trigger_keeps_earlier_tokens :
  last (split (str_of "happy never")) = Some (str_of "never")
  ∧ bool_decide (str_of "never" ∈ negation_words) = true
  ∧ tokenize env_ref (str_of "happy never") = [str_of "happy"]
  ∧ preprocess_text env_ref (Str (str_of "happy never")) = str_of "happy".
Proof. by vm_compute. Qed.

(** C4: a word met with the flag unset and that is no trigger is emitted
    unchanged when it is no stop-word and dropped when it is one; the tokens
    stand in the order of the words they come from (they come, one each and
    in order, from a subsequence of the words), and a text without triggers
    yields its words without the stop-words. *)
Theorem plain_word_kept_in_order (E : env) :
  (∀ st word, negate st = false → word ∉ negation_words →
     (word ∉ ENGLISH_STOP_WORDS E →
      loop_body E st word = LoopState false (processed_words st ++ [word]))
     ∧ (word ∈ ENGLISH_STOP_WORDS E → loop_body E st word = st))
  ∧ (∀ text, ∃ sources,
       sources `sublist_of` split text
       ∧ Forall2 (derived_from E) sources (tokenize E text))
  ∧ (∀ text, Forall (fun word => word ∉ negation_words) (split text) →
       tokenize E text
       = filter (fun word => word ∉ ENGLISH_STOP_WORDS E) (split text)).
Proof.
  split_and!.
  - intros st word Hn Hw. rewrite loop_body_plain by done.
    split; intros Hs; [by rewrite decide_False|by rewrite decide_True].
  - intros text. unfold tokenize.
    destruct (run_loop_in_order E (split text) (LoopState false []))
      as (sources & new & Hsub & Hout & Hder).
    exists sources. by rewrite Hout.
  - intros text Hws. unfold tokenize. by rewrite run_loop_plain.
Qed.

Lemma plain_word_kept_in_order_witness :
  (loop_body env_ref (LoopState false [str_of "so"]) (str_of "happy")
     = LoopState false ([str_of "so"] ++ [str_of "happy"]))
  ∧ (loop_body env_ref (LoopState false [str_of "so"]) (str_of "the")
     = LoopState false [str_of "so"])
  ∧ (∃ sources,
       sources `sublist_of` split (str_of "i am not happy today")
       ∧ Forall2 (derived_from env_ref) sources
           (tokenize env_ref (str_of "i am not happy today")))
  ∧ tokenize env_ref (str_of "the cat is happy")
    = filter (fun word => word ∉ ENGLISH_STOP_WORDS env_ref)
        (split (str_of "the cat is happy")).
Proof.
  destruct (plain_word_kept_in_order env_ref) as (Hbody & Horder & Hfilter).
  split_and!.
  - apply (Hbody (LoopState false [str_of "so"]) (str_of "happy")); compute_done.
  - apply (Hbody (LoopState false [str_of "so"]) (str_of "the")); compute_done.
  - apply Horder.
  - apply Hfilter. compute_done.
Defined.

Example plain_words_ref :
  tokenize env_ref (str_of "the cat is very happy") = [str_of "cat"; str_of "happy"].
Proof. by vm_compute. Qed.

(** C9: a trigger that follows a trigger is taken as a trigger, since the
    membership test comes first: the state is left as it is (nothing is
    emitted, substituted or marked, and the flag stays true), two triggers in
    a row act as the second alone, and "not never good" yields the tokens of
    "never good". *)
Theorem consecutive_triggers_do_not_cancel (E : env) :
  (∀ st word, negate st = true → word ∈ negation_words →
     loop_body E st word = st)
  ∧ (∀ st trigger1 trigger2 words,
       trigger1 ∈ negation_words → trigger2 ∈ negation_words →
       run_loop E st (trigger1 :: trigger2 :: words)
       = run_loop E st (trigger2 :: words))
  ∧ tokenize E (str_of "not never good") = tokenize E (str_of "never good").
Proof.
  split_and!.
  - intros [n out] word Hn Hw. cbn in Hn. subst n. by rewrite loop_body_trigger.
  - intros st t1 t2 words H1 H2. cbn [run_loop foldl].
    by rewrite !loop_body_trigger.
  - unfold tokenize.
    change (split (str_of "not never good"))
      with [str_of "not"; str_of "never"; str_of "good"].
    change (split (str_of "never good")) with [str_of "never"; str_of "good"].
    cbn [run_loop foldl].
    rewrite (loop_body_trigger E _ (str_of "not")) by compute_done.
    by rewrite !(loop_body_trigger E _ (str_of "never")) by compute_done.
Qed.

Lemma consecutive_triggers_do_not_cancel_witness :
  loop_body env_ref (LoopState true [str_of "glad"]) (str_of "never")
    = LoopState true [str_of "glad"]
  ∧ run_loop env_ref (LoopState false []) [str_of "not"; str_of "never"; str_of "good"]
    = run_loop env_ref (LoopState false []) [str_of "never"; str_of "good"]
  ∧ tokenize env_ref (str_of "not never good") = tokenize env_ref (str_of "never good").
Proof.
  destruct (consecutive_triggers_do_not_cancel env_ref) as (Hbody & Htwo & Hex).
  split_and!.
  - apply (Hbody (LoopState true [str_of "glad"])); [reflexivity|compute_done].
  - apply Htwo; compute_done.
  - exact Hex.
Defined.

Example consecutive_triggers_ref :
  tokenize env_ref (str_of "not never good") = [str_of "evil"].
Proof. by vm_compute. Qed.

(** ** The orchestrator *)

(** *** [np.argmax] *)

Lemma argmax_from_spec (p : list Q) : ∀ ip max_ind mp i,
  drop i p = ip →
  (max_ind < i)%nat →
  p !! max_ind = Some mp →
  (∀ j x, (j < i)%nat → p !! j = Some x → (x <= mp)%Q) →
  (∀ j x, (j < max_ind)%nat → p !! j = Some x → (x < mp)%Q) →
  ∃ m, p !! argmax_from max_ind mp i ip = Some m
       ∧ (∀ j x, p !! j = Some x → (x <= m)%Q)
       ∧ (∀ j x, (j < argmax_from max_ind mp i ip)%nat → p !! j = Some x → (x < m)%Q).
Proof.
  induction ip as [|x ip' IH]; intros max_ind mp i Hdrop Hlt Hmp Hle Hfirst.
  - exists mp. cbn. split_and!; [done| |done].
    intros j y Hj. apply (Hle j); [|done].
    apply lookup_lt_Some in Hj.
    pose proof (length_drop p i) as Hlen. rewrite Hdrop in Hlen. cbn in Hlen. lia.
  - assert (p !! i = Some x) as Hx.
    { pose proof (lookup_drop p i 0) as Hl.
      rewrite Hdrop, Nat.add_0_r in Hl. by rewrite <- Hl. }
    assert (drop (S i) p = ip') as Hdrop'.
    { rewrite (drop_S p x i Hx) in Hdrop. by injection Hdrop. }
    cbn [argmax_from]. destruct (Qle_bool x mp) eqn:Hcmp.
    + apply Qle_bool_iff in Hcmp.
      apply IH; [done|lia|done| |done].
      intros j y Hj Hy. destruct (decide (j = i)) as [->|Hne].
      * by replace y with x by congruence.
      * apply (Hle j); [lia|done].
    + assert (mp < x)%Q as Hgt.
      { apply Qnot_le_lt. intros Hc%Qle_bool_iff. congruence. }
      apply IH; [done|lia|done| |].
      * intros j y Hj Hy. destruct (decide (j = i)) as [->|Hne].
        -- replace y with x by congruence. apply Qle_refl.
        -- apply Qle_trans with mp; [apply (Hle j); [lia|done]|].
           by apply Qlt_le_weak.
      * intros j y Hj Hy.
        apply Qle_lt_trans with mp; [by apply (Hle j)|done].
Qed.

(** For every non-empty row [np.argmax] returns an index of a largest value,
    and every value before that index is strictly smaller. *)
Lemma np_argmax_first_max (p : list Q) :
  p ≠ [] →
  ∃ i m, np_argmax p = Some i ∧ p !! i = Some m
         ∧ (∀ j x, p !! j = Some x → (x <= m)%Q)
         ∧ (∀ j x, (j < i)%nat → p !! j = Some x → (x < m)%Q).
Proof.
  destruct p as [|x rest]; [done|]. intros _.
  destruct (argmax_from_spec (x :: rest) rest 0%nat x 1%nat) as (m & Hm & Hmax & Hfirst).
  - done.
  - lia.
  - done.
  - intros j y Hj Hy. assert (j = 0)%nat as -> by lia.
    cbn in Hy. injection Hy as ->. apply Qle_refl.
  - intros j y Hj. lia.
  - exists (argmax_from 0 x 1 rest), m. by cbn.
Qed.

Lemma np_argmax_Some (p : list Q) (i : nat) :
  np_argmax p = Some i →
  ∃ m, p !! i = Some m
       ∧ (∀ j x, p !! j = Some x → (x <= m)%Q)
       ∧ (∀ j x, p !! j = Some x → (x == m)%Q → (i <= j)%nat).
Proof.
  intros Hi.
  destruct (np_argmax_first_max p) as (i' & m & Hi' & Hm & Hmax & Hfirst).
  { by destruct p. }
  assert (i' = i) as -> by congruence.
  exists m. split_and!; [done|done|].
  intros j x Hx Heq. destruct (le_lt_dec i j) as [|Hlt]; [done|].
  pose proof (Hfirst j x Hlt Hx) as Hstrict.
  rewrite Heq in Hstrict. by apply Qlt_irrefl in Hstrict.
Qed.

Lemma predict_emotion_Some (E : env) text label sentiment probs :
  predict_emotion E text = Some (label, sentiment, probs) →
  probs = model_predict E (vectorizer_transform E (preprocess_text E text))
  ∧ ∃ i raw, np_argmax probs = Some i
             ∧ classes_ E !! i = Some raw
             ∧ label = capitalize (unicode E) raw
             ∧ sentiment = sentiment_of E raw.
Proof.
  unfold predict_emotion. intros H.
  destruct (np_argmax _) as [i|] eqn:Hi; [|done]. cbn in H.
  destruct (classes_ E !! i) as [raw|] eqn:Hraw; [|done]. cbn in H.
  injection H as <- <- <-. eauto 10.
Qed.

(** C7: the index [predict_emotion] selects is the arg-max of the
    probability vector with ties broken by the lowest index: the value at
    the index is a largest one, every slot that holds an equal value has an
    index at least as large, and the label returned is the one at that
    index; and [np.argmax] returns such an index for every non-empty
    vector. *)
Theorem argmax_ties_lowest_index (E : env) (text : value)
    (label sentiment : str) (probs : list Q) :
  predict_emotion E text = Some (label, sentiment, probs) →
  (∀ p : list Q, p ≠ [] → ∃ i, np_argmax p = Some i)
  ∧ ∃ i m raw,
      np_argmax probs = Some i
      ∧ probs !! i = Some m
      ∧ (∀ j x, probs !! j = Some x → (x <= m)%Q)
      ∧ (∀ j x, probs !! j = Some x → (x == m)%Q → (i <= j)%nat)
      ∧ classes_ E !! i = Some raw
      ∧ label = capitalize (unicode E) raw.
Proof.
  intros (_ & i & raw & Hi & Hraw & Hlabel & _)%predict_emotion_Some.
  split.
  - intros p Hp. destruct (np_argmax_first_max p Hp) as (j & _ & Hj & _). eauto.
  - destruct (np_argmax_Some probs i Hi) as (m & Hm & Hmax & Hties).
    exists i, m, raw. by split_and!.
Qed.

Example predict_ref_tie :
  predict_emotion env_ref (Str (str_of "I am happy"))
  = Some (str_of "Joy", str_of "Positive", [1 # 10; 1 # 10; 2 # 5; 2 # 5; 0; 0]%Q).
Proof. by vm_compute. Qed.

Lemma argmax_ties_lowest_index_witness :
  predict_emotion env_ref (Str (str_of "I am happy"))
  = Some (str_of "Joy", str_of "Positive", [1 # 10; 1 # 10; 2 # 5; 2 # 5; 0; 0]%Q)
  ∧ (∀ p : list Q, p ≠ [] → ∃ i, np_argmax p = Some i)
  ∧ ∃ i m raw,
      np_argmax [1 # 10; 1 # 10; 2 # 5; 2 # 5; 0; 0]%Q = Some i
      ∧ [1 # 10; 1 # 10; 2 # 5; 2 # 5; 0; 0]%Q !! i = Some m
      ∧ (∀ j x, [1 # 10; 1 # 10; 2 # 5; 2 # 5; 0; 0]%Q !! j = Some x → (x <= m)%Q)
      ∧ (∀ j x, [1 # 10; 1 # 10; 2 # 5; 2 # 5; 0; 0]%Q !! j = Some x →
                (x == m)%Q → (i <= j)%nat)
      ∧ classes_ env_ref !! i = Some raw
      ∧ str_of "Joy" = capitalize (unicode env_ref) raw.
Proof.
  split; [reflexivity|].
  apply (argmax_ties_lowest_index env_ref (Str (str_of "I am happy"))
           (str_of "Joy") (str_of "Positive")).
  reflexivity.
Defined.

(** *** The sentiment table *)

Lemma sentiment_mapping_values key sentiment :
  sentiment_mapping !! key = Some sentiment →
  sentiment ∈ [str_of "Positive"; str_of "Negative"; str_of "Neutral"].
Proof.
  intros H%elem_of_list_to_map_2.
  repeat (apply elem_of_cons in H as [[= _ ->]|H]; [set_solver|]).
  by apply not_elem_of_nil in H.
Qed.

(** C8: the sentiment is a lookup of the lower-cased predicted label in the
    static table, "Neutral" when the label is not a key: "joy" gives
    "Positive", "anger" gives "Negative", the result is always one of the
    three sentiments, and the emotion returned is the predicted label
    capitalized. *)
Theorem sentiment_is_table_lookup (E : env) :
  (∀ text label sentiment probs,
     predict_emotion E text = Some (label, sentiment, probs) →
     ∃ raw, raw ∈ classes_ E
            ∧ label = capitalize (unicode E) raw
            ∧ sentiment = default (str_of "Neutral")
                            (sentiment_mapping !! lower (unicode E) raw))
  ∧ (∀ raw, lower (unicode E) raw = str_of "joy" →
            sentiment_of E raw = str_of "Positive")
  ∧ (∀ raw, lower (unicode E) raw = str_of "anger" →
            sentiment_of E raw = str_of "Negative")
  ∧ (∀ raw, sentiment_mapping !! lower (unicode E) raw = None →
            sentiment_of E raw = str_of "Neutral")
  ∧ (∀ raw, sentiment_of E raw
            ∈ [str_of "Positive"; str_of "Negative"; str_of "Neutral"]).
Proof.
  split_and!.
  - intros text label sentiment probs
      (_ & i & raw & _ & Hraw & Hlabel & Hsent)%predict_emotion_Some.
    exists raw. split_and!; [by eapply list_elem_of_lookup_2|done|done].
  - intros raw Hlow. unfold sentiment_of. rewrite Hlow. by vm_compute.
  - intros raw Hlow. unfold sentiment_of. rewrite Hlow. by vm_compute.
  - intros raw Hnone. unfold sentiment_of. by rewrite Hnone.
  - intros raw. unfold sentiment_of.
    destruct (sentiment_mapping !! _) as [sentiment|] eqn:Hs; cbn.
    + by eapply sentiment_mapping_values.
    + set_solver.
Qed.

Example predict_ref_unmapped :
  sentiment_of env_ref (str_of "Disgust") = str_of "Neutral"
  ∧ sentiment_of env_ref (str_of "JOY") = str_of "Positive"
  ∧ capitalize (unicode env_ref) (str_of "aNGER") = str_of "Anger".
Proof. by vm_compute. Qed.

Lemma sentiment_is_table_lookup_witness :
  (∃ raw, raw ∈ classes_ env_ref
          ∧ str_of "Anger" = capitalize (unicode env_ref) raw
          ∧ str_of "Negative" = default (str_of "Neutral")
                                  (sentiment_mapping !! lower (unicode env_ref) raw))
  ∧ sentiment_of env_ref (str_of "Joy") = str_of "Positive"
  ∧ sentiment_of env_ref (str_of "ANGER") = str_of "Negative"
  ∧ sentiment_of env_ref (str_of "disgust") = str_of "Neutral".
Proof.
  destruct (sentiment_is_table_lookup env_ref) as (Hrun & Hjoy & Hanger & Hother & _).
  split_and!.
  - apply (Hrun (Str (str_of "not good")) _ _ [2 # 5; 1 # 10; 0; 0; 2 # 5; 1 # 10]%Q).
    reflexivity.
  - apply Hjoy. reflexivity.
  - apply Hanger. reflexivity.
  - apply Hother. reflexivity.
Defined.

(** *** Two runs *)

Lemma loop_body_flag (E : env) st word :
  negate (loop_body E st word) = bool_decide (word ∈ negation_words).
Proof.
  unfold loop_body. case_bool_decide as Hw.
  - by rewrite decide_True.
  - rewrite decide_False by done.
    destruct (negate st) eqn:Hn.
    + destruct (get_antonym E word); [|done]. by destruct (_ && _).
    + by destruct (decide (word ∉ ENGLISH_STOP_WORDS E)).
Qed.


Section TwoRuns.
Variables E1 E2 : env.
Hypothesis Hsame : same_artifacts E1 E2.

Lemma lower_char_same before c after :
  lower_char (unicode E1) before c after = lower_char (unicode E2) before c after.
Proof.
  unfold lower_char.
  by rewrite (same_sigma _ _ Hsame), (same_lower _ _ Hsame).
Qed.

Lemma lower_from_same s : ∀ before,
  lower_from (unicode E1) before s = lower_from (unicode E2) before s.
Proof.
  induction s as [|c rest IH]; intros before; [done|].
  cbn [lower_from]. by rewrite lower_char_same, IH.
Qed.

Lemma capitalize_same s :
  capitalize (unicode E1) s = capitalize (unicode E2) s.
Proof.
  destruct s as [|c rest]; [done|].
  unfold capitalize, title_char.
  by rewrite (same_title _ _ Hsame), lower_from_same.
Qed.

Lemma normalize_same text : normalize E1 text = normalize E2 text.
Proof.
  unfold normalize, lower.
  by rewrite (same_demojize _ _ Hsame), lower_from_same.
Qed.

Lemma antonyms_added_same word : antonyms_added E1 word = antonyms_added E2 word.
Proof.
  unfold antonyms_added. rewrite (same_synsets _ _ Hsame).
  apply flat_map_ext. intros syn. apply flat_map_ext. intros lemma.
  destruct (lemma_antonyms lemma); [done|].
  unfold lower. by rewrite lower_from_same.
Qed.

(** With the same iteration order the two runs get the same antonym. *)
Lemma get_antonym_same_order word :
  (∀ l, set_iter E1 l = set_iter E2 l) →
  get_antonym E1 word = get_antonym E2 word.
Proof.
  intros Horder. unfold get_antonym. by rewrite antonyms_added_same, Horder.
Qed.

(** So do they under any two orders when there is one antonym at most:
    whatever the order, the first element of the set is that antonym. *)
Lemma get_antonym_one_antonym word :
  set_iter_lists_elements E1 → set_iter_lists_elements E2 →
  one_antonym_at_most E1 word →
  get_antonym E1 word = get_antonym E2 word.
Proof.
  intros H1 H2 Hone. unfold get_antonym, one_antonym_at_most in *.
  rewrite <- antonyms_added_same.
  set (added := antonyms_added E1 word) in *.
  assert (∀ E, set_iter_lists_elements E →
               head (set_iter E added) = head added) as Hhead.
  { intros E HE. destruct added as [|a added'] eqn:Hadded.
    - destruct (set_iter E []) as [|x l] eqn:Hl; [done|].
      assert (x ∈ set_iter E []) as Hx by (rewrite Hl; by left).
      apply (proj1 (HE [] x)) in Hx. by apply not_elem_of_nil in Hx.
    - destruct (set_iter E (a :: added')) as [|x l] eqn:Hl.
      + assert (a ∈ set_iter E (a :: added')) as Ha by (apply HE; by left).
        rewrite Hl in Ha. by apply not_elem_of_nil in Ha.
      + assert (x ∈ a :: added') as Hx.
        { apply (proj1 (HE (a :: added') x)). rewrite Hl. by left. }
        cbn. f_equal. apply Hone; [done|by left]. }
  by rewrite (Hhead E1 H1), (Hhead E2 H2).
Qed.

Lemma run_loop_agree words : ∀ st,
  (∀ word, word ∈ negated_words (negate st) words →
           get_antonym E1 word = get_antonym E2 word) →
  run_loop E1 st words = run_loop E2 st words.
Proof.
  induction words as [|word words IH]; intros st Hant; [done|].
  change (run_loop ?E st (word :: words))
    with (run_loop E (loop_body E st word) words).
  assert (loop_body E1 st word = loop_body E2 st word) as Hbody.
  { unfold loop_body. rewrite (same_stop_words _ _ Hsame).
    destruct (decide (word ∈ negation_words)) as [Hw|Hw]; [done|].
    destruct (negate st) eqn:Hn; [|done].
    rewrite (Hant word); [done|].
    cbn [negated_words]. rewrite decide_False by done. by left. }
  rewrite Hbody. apply IH. intros w Hw. apply Hant.
  rewrite loop_body_flag in Hw. cbn [negated_words].
  destruct (decide (word ∈ negation_words)) as [Ht|Ht].
  - by rewrite bool_decide_eq_true_2 in Hw.
  - rewrite bool_decide_eq_false_2 in Hw by done.
    apply elem_of_app. by right.
Qed.

Lemma predict_emotion_agree text :
  (∀ word, word ∈ negated_words_of E1 text →
           get_antonym E1 word = get_antonym E2 word) →
  predict_emotion E1 text = predict_emotion E2 text.
Proof.
  intros Hant.
  assert (preprocess_text E1 text = preprocess_text E2 text) as Hclean.
  { destruct text as [s|]; [|done].
    unfold preprocess_text, tokenize. rewrite <- normalize_same.
    by rewrite (run_loop_agree _ (LoopState false [])). }
  unfold predict_emotion, sentiment_of, lower.
  rewrite Hclean, (same_vectorizer _ _ Hsame),
    (same_model _ _ Hsame), (same_classes _ _ Hsame).
  destruct (np_argmax _) as [i|]; [|done]. cbn.
  destruct (classes_ E2 !! i) as [raw|]; [|done]. cbn.
  by rewrite capitalize_same, lower_from_same.
Qed.

End TwoRuns.

Lemma emoji_name_reverse c :
  emoji_name (reverse emoji_table) c = emoji_name emoji_table c.
Proof.
  change (reverse emoji_table)
    with [(128546, str_of "crying_face"); (128077, str_of "thumbs_up");
          (128512, str_of "grinning_face")].
  unfold emoji_table. cbn [emoji_name].
  destruct (N.eqb_spec c 128546) as [->|_]; [done|].
  destruct (N.eqb_spec c 128077) as [->|_]; [done|].
  by destruct (N.eqb_spec c 128512).
Qed.

Lemma env_reloaded_same : same_artifacts env_ref env_reloaded.
Proof.
  split; try done.
  intros s. cbn. unfold demojize_with.
  apply flat_map_ext. intros c. by rewrite emoji_name_reverse.
Qed.

Lemma env_ref_lists_elements : set_iter_lists_elements env_ref.
Proof. intros l x. apply elem_of_remove_dups. Qed.

Lemma env_reloaded_lists_elements : set_iter_lists_elements env_reloaded.
Proof.
  intros l x. cbn [set_iter env_reloaded].
  by rewrite elem_of_reverse, elem_of_remove_dups.
Qed.

(** C10, as amended: two calls of [predict_emotion] with the same text, under
    the same vectorizer, classifier, label table and lexical database (and
    the same emoji and Unicode tables and stop-words), return the same triple
    of emotion label, sentiment label and probability vector (or fail alike)
    when sets are iterated in the same order in both calls, as within one
    interpreter process, and also under any two iteration orders when the
    lexical database gives at most one antonym to every word of the text
    that follows a trigger. *)
Theorem predict_emotion_two_runs (E1 E2 : env) (text1 text2 : value) :
  same_artifacts E1 E2 →
  text1 = text2 →
  (∀ l, set_iter E1 l = set_iter E2 l)
  ∨ (set_iter_lists_elements E1 ∧ set_iter_lists_elements E2
     ∧ ∀ word, word ∈ negated_words_of E1 text1 → one_antonym_at_most E1 word) →
  predict_emotion E1 text1 = predict_emotion E2 text2.
Proof.
  intros Hsame <- Horder. apply predict_emotion_agree; [done|].
  intros word Hword. destruct Horder as [Horder|(H1 & H2 & Hone)].
  - by apply get_antonym_same_order.
  - apply get_antonym_one_antonym; auto.
Qed.

(** Two runs on the reference artifacts, the second with its tables listed
    in another order and its sets iterated in the opposite order: "happy",
    the one word after a trigger, has one antonym, and both runs return the
    same triple. *)
Lemma predict_emotion_two_runs_witness :
  same_artifacts env_ref env_reloaded
  ∧ Str (str_of "I am NOT happy") = Str (str_of "I am NOT happy")
  ∧ (set_iter_lists_elements env_ref ∧ set_iter_lists_elements env_reloaded
     ∧ ∀ word, word ∈ negated_words_of env_ref (Str (str_of "I am NOT happy")) →
               one_antonym_at_most env_ref word)
  ∧ set_iter env_ref [str_of "a"; str_of "b"] ≠ set_iter env_reloaded [str_of "a"; str_of "b"]
  ∧ predict_emotion env_ref (Str (str_of "I am NOT happy"))
    = Some (str_of "Joy", str_of "Positive", [1 # 10; 1 # 10; 2 # 5; 2 # 5; 0; 0]%Q)
  ∧ predict_emotion env_ref (Str (str_of "I am NOT happy"))
    = predict_emotion env_reloaded (Str (str_of "I am NOT happy")).
Proof.
  assert (∀ word, word ∈ negated_words_of env_ref (Str (str_of "I am NOT happy")) →
                  one_antonym_at_most env_ref word) as Hone.
  { intros word Hword.
    change (negated_words_of env_ref (Str (str_of "I am NOT happy")))
      with [str_of "happy"] in Hword.
    apply list_elem_of_singleton in Hword as ->.
    intros a b Ha Hb.
    change (antonyms_added env_ref (str_of "happy")) with [str_of "unhappy"] in Ha, Hb.
    apply list_elem_of_singleton in Ha as ->.
    by apply list_elem_of_singleton in Hb as ->. }
  split; [exact env_reloaded_same|]. split; [reflexivity|].
  split; [by split_and!; [exact env_ref_lists_elements|exact env_reloaded_lists_elements|]|].
  split; [by vm_compute|]. split; [reflexivity|].
  apply (predict_emotion_two_runs env_ref env_reloaded _ _ env_reloaded_same eq_refl).
  right. split_and!;
    [exact env_ref_lists_elements|exact env_reloaded_lists_elements|exact Hone].
Defined.

(** C10 as stated fails: [get_antonym] returns the first element of a set of
    strings, and the order of such a set follows the hashes of the strings,
    which change from one interpreter process to the next.  With the same
    vectorizer, classifier, label table and lexical database, the two orders
    give two antonyms of "good" and two different triples for "not good". *)
Lemma set_order_changes_prediction :
  vectorizer_transform env_ref = vectorizer_transform env_ref'
  ∧ model_predict env_ref = model_predict env_ref'
  ∧ classes_ env_ref = classes_ env_ref'
  ∧ synsets env_ref = synsets env_ref'
  ∧ antonyms_added env_ref (str_of "good")
    = [str_of "evil"; str_of "bad"; str_of "badness"]
  ∧ antonyms_added env_ref' (str_of "good")
    = [str_of "evil"; str_of "bad"; str_of "badness"]
  ∧ get_antonym env_ref (str_of "good") = Some (str_of "evil")
  ∧ get_antonym env_ref' (str_of "good") = Some (str_of "badness")
  ∧ predict_emotion env_ref (Str (str_of "not good"))
    = Some (str_of "Anger", str_of "Negative", [2 # 5; 1 # 10; 0; 0; 2 # 5; 1 # 10]%Q)
  ∧ predict_emotion env_ref' (Str (str_of "not good"))
    = Some (str_of "Joy", str_of "Positive", [1 # 10; 1 # 10; 2 # 5; 2 # 5; 0; 0]%Q).
Proof. by vm_compute. Qed.

(** ** More on the preprocessor *)

(** *** The words of a text *)

Lemma split_from_words (Q : N → Prop) (s : str) : ∀ cur,
  Forall Q cur →
  Forall (fun c => isspace c = false → Q c) s →
  Forall (fun w => w ≠ [] ∧ Forall Q w) (split_from cur s).
Proof.
  induction s as [|c rest IH]; intros cur Hcur Hs; cbn [split_from].
  - destruct cur; constructor; [done|constructor].
  - apply Forall_cons in Hs as [Hc Hrest].
    destruct (isspace c) eqn:Hsp.
    + destruct cur as [|d cur'].
      * by apply IH.
      * constructor; [done|]. by apply IH.
    + apply IH; [|done]. apply Forall_app. split; [done|].
      constructor; [by apply Hc|constructor].
Qed.

Lemma split_blank (s : str) :
  Forall (fun c => isspace c = true) s → split s = [].
Proof.
  unfold split. induction 1 as [|c rest Hc _ IH]; [done|].
  cbn [split_from]. by rewrite Hc.
Qed.



Lemma split_normalize_words (E : env) (text : str) :
  Forall (fun w => w ≠ [] ∧ Forall (fun c => is_az c = true) w)
    (split (normalize E text)).
Proof.
  unfold split. apply split_from_words; [constructor|].
  eapply Forall_impl; [apply normalize_plain|].
  intros c Hp Hs. apply orb_true_iff in Hp as [Hp|Hp]; [done|congruence].
Qed.

(** X1: every word the loop of [preprocess_text] meets is non-empty and made
    of the letters a-z only, whatever the text; a text of white space only
    has no words. *)
Theorem words_are_lowercase_letters (E : env) (text : str) :
  Forall (fun w => w ≠ [] ∧ Forall (fun c => is_az c = true) w)
    (split (normalize E text))
  ∧ (Forall (fun c => isspace c = true) (normalize E text) →
     split (normalize E text) = []).
Proof. split; [apply split_normalize_words|apply split_blank]. Qed.

Lemma words_are_lowercase_letters_witness :
  Forall (fun w => w ≠ [] ∧ Forall (fun c => is_az c = true) w)
    (split (normalize env_ref [9; 49; 33; SPACE; 63]))
  ∧ split (normalize env_ref [9; 49; 33; SPACE; 63]) = [].
Proof.
  destruct (words_are_lowercase_letters env_ref [9; 49; 33; SPACE; 63]) as [Hw Hb].
  split; [exact Hw|]. apply Hb. by repeat constructor.
Defined.

(** *** The loop *)

Lemma loop_body_emitted (E : env) st word :
  processed_words (loop_body E st word) = processed_words st
  ∨ ∃ token, emitted E word token
      ∧ processed_words (loop_body E st word) = processed_words st ++ [token].
Proof.
  unfold loop_body, emitted.
  destruct (decide (word ∈ negation_words)); [by left|].
  destruct (negate st).
  - right. destruct (get_antonym E word) as [antonym|] eqn:Ha; [|eauto 6].
    destruct (truthy antonym) eqn:Ht; [|cbn [andb]; eauto 6].
    case_bool_decide; cbn [andb negb]; [eauto 6|].
    exists antonym. split; [|done]. right. right.
    split_and!; [done| |done]. by destruct antonym.
  - destruct (decide (word ∉ ENGLISH_STOP_WORDS E)); [right|left]; eauto 8.
Qed.

Lemma run_loop_invariant (E : env) (P : list N → Prop) words :
  (∀ word token, word ∈ words → emitted E word token → P token) →
  ∀ st, Forall P (processed_words st) →
        Forall P (processed_words (run_loop E st words)).
Proof.
  induction words as [|word words IH]; intros Hem st Hst; [done|].
  change (run_loop E st (word :: words))
    with (run_loop E (loop_body E st word) words).
  apply IH.
  - intros w t Hw. apply Hem. by right.
  - destruct (loop_body_emitted E st word) as [->|(token & Htok & ->)]; [done|].
    apply Forall_app. split; [done|].
    constructor; [|constructor]. apply (Hem word); [by left|done].
Qed.

Lemma loop_body_out (E : env) n out word :
  loop_body E (LoopState n out) word
  = LoopState (negate (loop_body E (LoopState n []) word))
      (out ++ processed_words (loop_body E (LoopState n []) word)).
Proof.
  unfold loop_body. cbn [negate processed_words].
  destruct (decide (word ∈ negation_words)); [by rewrite app_nil_r|].
  destruct n.
  - destruct (get_antonym E word); [|done]. by destruct (_ && _).
  - destruct (decide (word ∉ ENGLISH_STOP_WORDS E)); [done|].
    by rewrite app_nil_r.
Qed.

Lemma run_loop_out (E : env) words : ∀ n out,
  run_loop E (LoopState n out) words
  = LoopState (negate (run_loop E (LoopState n []) words))
      (out ++ processed_words (run_loop E (LoopState n []) words)).
Proof.
  induction words as [|word words IH]; intros n out.
  - cbn. by rewrite app_nil_r.
  - change (run_loop E ?st (word :: words))
      with (run_loop E (loop_body E st word) words).
    rewrite (loop_body_out E n out).
    destruct (loop_body E (LoopState n []) word) as [n' new] eqn:Hbody.
    cbn [negate processed_words].
    rewrite (IH n' (out ++ new)), (IH n' new).
    cbn [negate processed_words]. by rewrite app_assoc.
Qed.

Lemma run_loop_flag (E : env) words : ∀ st,
  negate (run_loop E st words)
  = match last words with
    | Some word => bool_decide (word ∈ negation_words)
    | None => negate st
    end.
Proof.
  induction words as [|word words IH]; intros st; [done|].
  change (run_loop E st (word :: words))
    with (run_loop E (loop_body E st word) words).
  rewrite IH. destruct words as [|word' words'].
  - cbn [last]. apply loop_body_flag.
  - change (last (word :: word' :: words')) with (last (word' :: words')).
    destruct (last (word' :: words')) eqn:Hlast; [done|].
    by apply last_None in Hlast.
Qed.

Lemma split_from_app (s1 s2 : str) : ∀ cur,
  split_from cur (s1 ++ SPACE :: s2) = split_from cur s1 ++ split s2.
Proof.
  induction s1 as [|c s1 IH]; intros cur; cbn [app split_from].
  - change (isspace SPACE) with true. cbn match. by destruct cur.
  - destruct (isspace c); [|apply IH].
    destruct cur; [apply IH|]. by rewrite IH.
Qed.

(** X2: the scope of a trigger is the next word and nothing more.  After the
    loop the flag is set exactly when the last word is a trigger; so when a
    text does not end in a trigger, the tokens of that text followed by a
    space and a second text are the tokens of the one followed by the tokens
    of the other. *)
Theorem negation_scope_is_one_word (E : env) :
  (∀ st words,
     negate (run_loop E st words)
     = match last words with
       | Some word => bool_decide (word ∈ negation_words)
       | None => negate st
       end)
  ∧ (∀ text1 text2,
       (∀ word, last (split text1) = Some word → word ∉ negation_words) →
       tokenize E (text1 ++ SPACE :: text2) = tokenize E text1 ++ tokenize E text2).
Proof.
  split; [intros st words; apply run_loop_flag|].
  intros text1 text2 Hlast. unfold tokenize, split.
  rewrite split_from_app. fold (split text1).
  rewrite run_loop_app.
  destruct (run_loop E (LoopState false []) (split text1)) as [n out] eqn:Hrun.
  assert (n = false) as ->.
  { change n with (negate (LoopState n out)). rewrite <- Hrun, run_loop_flag.
    destruct (last (split text1)) as [word|] eqn:Hw; [|done].
    apply bool_decide_eq_false_2. by apply Hlast. }
  by rewrite run_loop_out.
Qed.

Lemma negation_scope_is_one_word_witness :
  negate (run_loop env_ref (LoopState false []) [str_of "not"; str_of "happy"]) = false
  ∧ tokenize env_ref (str_of "not happy" ++ SPACE :: str_of "never good")
    = tokenize env_ref (str_of "not happy") ++ tokenize env_ref (str_of "never good").
Proof.
  destruct (negation_scope_is_one_word env_ref) as [Hflag Happ].
  split.
  - rewrite Hflag. reflexivity.
  - apply Happ. intros word [= <-]. compute_done.
Defined.

(** X3: no token is empty, and a token that is a stop-word is always a
    marked word of the text ([neg_] and the word); the words of the text and
    the antonyms pass only when they are no stop-words. *)
Theorem tokens_are_not_stop_words (E : env) (text : str) :
  Forall (fun token =>
            token ≠ []
            ∧ (token ∉ ENGLISH_STOP_WORDS E
               ∨ ∃ word, word ∈ split text ∧ token = neg_ word))
    (tokenize E text).
Proof.
  unfold tokenize. apply run_loop_invariant; [|constructor].
  intros word token Hword Hem.
  assert (word ≠ []) as Hne.
  { assert (Forall (fun w => w ≠ [] ∧ Forall (fun _ => True) w) (split text)) as Hall.
    { apply split_from_words; [constructor|]. by apply Forall_forall. }
    rewrite Forall_forall in Hall. by apply Hall in Hword as [? _]. }
  destruct Hem as [(-> & _ & Hs)|[->|(_ & Hne' & Hs)]]; eauto.
Qed.

(** *** The clean text *)






Example clean_text_ref :
  preprocess_text env_ref (Str (str_of "I am NOT happy, not  the Cat!"))
  = str_of "unhappy neg_the cat".
Proof. by vm_compute. Qed.

(** *** The antonym resolver *)

Lemma antonyms_added_elem (E : env) (word antonym : str) :
  antonym ∈ antonyms_added E word ↔
  ∃ syn lemma a rest,
    syn ∈ synsets E word ∧ lemma ∈ synset_lemmas syn
    ∧ lemma_antonyms lemma = a :: rest ∧ antonym = lower (unicode E) a.
Proof.
  unfold antonyms_added. rewrite list_elem_of_In, in_flat_map. split.
  - intros (syn & Hsyn & Hin). apply in_flat_map in Hin as (lemma & Hlemma & Hin).
    destruct (lemma_antonyms lemma) as [|a rest] eqn:Ha; [done|].
    destruct Hin as [<-|[]].
    exists syn, lemma, a, rest. by rewrite !list_elem_of_In.
  - intros (syn & lemma & a & rest & Hsyn & Hlemma & Ha & ->).
    exists syn. rewrite <- list_elem_of_In. split; [done|].
    apply in_flat_map. exists lemma. rewrite <- list_elem_of_In. split; [done|].
    rewrite Ha. by left.
Qed.

Lemma list_nil_no_elem {A} (l : list A) : l = [] ↔ ∀ x, x ∉ l.
Proof.
  split; [intros -> x; apply not_elem_of_nil|].
  destruct l as [|x l]; [done|]. intros H. destruct (H x). by left.
Qed.

(** X5: under an iteration order that lists the elements of a set,
    [get_antonym] returns the lower-cased name of the first antonym of some
    lemma of some synset of the word, and returns nothing exactly when no
    lemma of any synset of the word has an antonym. *)
Theorem get_antonym_from_lexicon (E : env) (word : str) :
  set_iter_lists_elements E →
  (∀ antonym, get_antonym E word = Some antonym →
     ∃ syn lemma a rest,
       syn ∈ synsets E word ∧ lemma ∈ synset_lemmas syn
       ∧ lemma_antonyms lemma = a :: rest ∧ antonym = lower (unicode E) a)
  ∧ (get_antonym E word = None ↔
     ∀ syn lemma, syn ∈ synsets E word → lemma ∈ synset_lemmas syn →
                  lemma_antonyms lemma = []).
Proof.
  intros Hiter.
  destruct (get_antonym_collected E word Hiter) as [Hsome Hnone]. split.
  - intros antonym Ha. by apply antonyms_added_elem, Hsome.
  - rewrite Hnone, list_nil_no_elem. split.
    + intros Hno syn lemma Hsyn Hlemma.
      destruct (lemma_antonyms lemma) as [|a rest] eqn:Ha; [done|].
      destruct (Hno (lower (unicode E) a)).
      apply antonyms_added_elem. by exists syn, lemma, a, rest.
    + intros Hall antonym (syn & lemma & a & rest & Hsyn & Hlemma & Ha & _)%antonyms_added_elem.
      by rewrite (Hall syn lemma) in Ha.
Qed.

Lemma env_ref_set_iter : set_iter_lists_elements env_ref.
Proof. intros l x. apply elem_of_remove_dups. Qed.

Lemma get_antonym_from_lexicon_witness :
  set_iter_lists_elements env_ref
  ∧ (∀ antonym, get_antonym env_ref (str_of "good") = Some antonym →
       ∃ syn lemma a rest,
         syn ∈ synsets env_ref (str_of "good") ∧ lemma ∈ synset_lemmas syn
         ∧ lemma_antonyms lemma = a :: rest
         ∧ antonym = lower (unicode env_ref) a)
  ∧ (get_antonym env_ref (str_of "good") = None ↔
     ∀ syn lemma, syn ∈ synsets env_ref (str_of "good") →
                  lemma ∈ synset_lemmas syn → lemma_antonyms lemma = []).
Proof.
  split; [exact env_ref_set_iter|].
  exact (get_antonym_from_lexicon env_ref (str_of "good") env_ref_set_iter).
Defined.

(** *** Failure of the orchestrator *)

Lemma np_argmax_bound (p : list Q) (i : nat) :
  np_argmax p = Some i → (i < length p)%nat.
Proof.
  intros (m & Hm & _)%np_argmax_Some. by eapply lookup_lt_Some.
Qed.

(** X6: once the vectorizer and the classifier have returned a row (their
    own failures are not modelled), the rest of [predict_emotion] raises
    exactly when that row is empty or the selected index lies outside the
    label table; the selected index is always inside the row, so with a
    non-empty row no longer than the label table it returns a triple. *)
Theorem predict_emotion_fails_iff (E : env) (text : value) :
  let prediction := model_predict E (vectorizer_transform E (preprocess_text E text)) in
  (predict_emotion E text = None ↔
   prediction = []
   ∨ ∃ i, np_argmax prediction = Some i ∧ (length (classes_ E) <= i)%nat)
  ∧ (∀ i, np_argmax prediction = Some i → (i < length prediction)%nat)
  ∧ (prediction ≠ [] → (length prediction <= length (classes_ E))%nat →
     is_Some (predict_emotion E text)).
Proof.
  intros prediction.
  assert (predict_emotion E text = None ↔
          prediction = []
          ∨ ∃ i, np_argmax prediction = Some i ∧ (length (classes_ E) <= i)%nat)
    as Hiff.
  { unfold predict_emotion. fold prediction.
    destruct (np_argmax prediction) as [i|] eqn:Hi; cbn.
    - destruct (classes_ E !! i) as [raw|] eqn:Hraw; cbn; split.
      + done.
      + intros [->|(j & [= <-] & Hj)]; [done|].
        apply lookup_lt_Some in Hraw. lia.
      + intros _. right. exists i. split; [done|]. by apply lookup_ge_None.
      + done.
    - split; [|done]. intros _. left. by destruct prediction. }
  split_and!; [done|apply np_argmax_bound|].
  intros Hne Hlen. apply not_eq_None_Some. intros Hp.
  apply Hiff in Hp as [?|(i & Hi & Hge)]; [done|].
  apply np_argmax_bound in Hi. lia.
Qed.

Lemma predict_emotion_fails_iff_witness :
  model_predict env_ref (vectorizer_transform env_ref
                           (preprocess_text env_ref (Str (str_of "so happy")))) ≠ []
  ∧ is_Some (predict_emotion env_ref (Str (str_of "so happy"))).
Proof.
  destruct (predict_emotion_fails_iff env_ref (Str (str_of "so happy")))
    as (_ & _ & Hok).
  split; [by vm_compute|]. apply Hok; [by vm_compute|]. vm_compute. lia.
Defined.

(** *** ASCII text *)

Lemma ascii_lower_bound c : c < 128 → ascii_lower c < 128.
Proof.
  unfold ascii_lower. destruct (is_AZ c) eqn:H; [|done].
  apply is_AZ_inv in H. lia.
Qed.

Lemma ascii_lower_not_AZ c : is_AZ (ascii_lower c) = false.
Proof.
  unfold ascii_lower. destruct (is_AZ c) eqn:H; [|done].
  apply is_AZ_inv in H. unfold is_AZ.
  apply andb_false_iff. right. apply N.leb_gt. lia.
Qed.

Lemma ascii_lower_idemp c : ascii_lower (ascii_lower c) = ascii_lower c.
Proof. unfold ascii_lower at 1. by rewrite ascii_lower_not_AZ. Qed.

Lemma lower_from_ascii U (s : str) : ∀ before,
  Forall (fun c => c < 128) s → lower_from U before s = map ascii_lower s.
Proof.
  induction s as [|c rest IH]; intros before Hs; [done|].
  apply Forall_cons in Hs as [Hc Hrest].
  cbn [lower_from map]. rewrite IH by done.
  unfold lower_char, ascii_lower.
  apply N.ltb_lt in Hc. rewrite Hc. by destruct (is_AZ c).
Qed.

Lemma replace_colon_ascii (s : str) :
  Forall (fun c => c < 128) s → Forall (fun c => c < 128) (replace_colon s).
Proof.
  unfold replace_colon. intros Hs. apply Forall_fmap.
  eapply Forall_impl; [exact Hs|]. intros c Hc. cbn.
  destruct (c =? COLON); [done|exact Hc].
Qed.

Lemma replace_colon_lower (s : str) :
  map ascii_lower (replace_colon s) = replace_colon (map ascii_lower s).
Proof.
  unfold replace_colon. rewrite !map_map. apply map_ext. intros c.
  destruct (N.eqb_spec c COLON) as [->|Hc]; [done|].
  destruct (N.eqb_spec (ascii_lower c) COLON) as [Hl|_]; [|done].
  unfold ascii_lower in Hl. destruct (is_AZ c) eqn:Hup; [|done].
  apply is_AZ_inv in Hup. unfold COLON in Hl. lia.
Qed.

(** On a text of ASCII characters without emoji the normalizer works
    character by character. *)
Lemma normalize_ascii (E : env) (s : str) :
  demojize E s = s → Forall (fun c => c < 128) s →
  normalize E s = strip_non_alpha (replace_colon (map ascii_lower s)).
Proof.
  intros Hd Hs. unfold normalize, lower. rewrite Hd.
  rewrite lower_from_ascii by by apply replace_colon_ascii.
  rewrite camel_split_no_capital.
  - by rewrite replace_colon_lower.
  - apply Forall_forall. intros c (d & -> & _)%list_elem_of_fmap.
    apply ascii_lower_not_AZ.
Qed.

Lemma lower_capitalize_ascii U (raw : str) :
  Forall (fun c => c < 128) raw →
  lower U (capitalize U raw) = lower U raw.
Proof.
  intros Hraw. destruct raw as [|c rest]; [done|].
  apply Forall_cons in Hraw as [Hc Hrest].
  unfold lower, capitalize, title_char.
  pose proof Hc as Hc'. apply N.ltb_lt in Hc'. rewrite Hc'.
  rewrite (lower_from_ascii _ rest) by done.
  rewrite (lower_from_ascii _ (c :: rest)) by by constructor.
  assert (Forall (fun c => c < 128) (map ascii_lower rest)) as Hrest'.
  { apply Forall_fmap. eapply Forall_impl; [exact Hrest|].
    intros d. apply ascii_lower_bound. }
  destruct (is_az c) eqn:Haz.
  - pose proof (is_az_inv c Haz) as Hrange.
    rewrite (lower_from_ascii _ ([c - 32] ++ _)) by (constructor; [lia|done]).
    cbn [app map]. rewrite map_map. f_equal.
    + unfold ascii_lower. rewrite (is_az_not_AZ c Haz).
      assert (is_AZ (c - 32) = true) as ->.
      { unfold is_AZ. apply andb_true_iff. rewrite !N.leb_le. lia. }
      lia.
    + apply map_ext. intros d. apply ascii_lower_idemp.
  - rewrite (lower_from_ascii _ ([c] ++ _)) by by constructor.
    cbn [app map]. rewrite map_map. f_equal.
    apply map_ext. intros d. apply ascii_lower_idemp.
Qed.

(** X7: the sentiment can be read off the emotion that is shown: when the
    labels of the label table are ASCII, the sentiment [predict_emotion]
    returns is the table's sentiment for the capitalized label it returns
    (lower-casing the capitalized label gives the lower-cased label). *)
Theorem sentiment_of_displayed_label (E : env) (text : value)
    (label sentiment : str) (probs : list Q) :
  Forall (Forall (fun c => c < 128)) (classes_ E) →
  predict_emotion E text = Some (label, sentiment, probs) →
  sentiment = sentiment_of E label.
Proof.
  intros Hascii (_ & i & raw & _ & Hraw & -> & ->)%predict_emotion_Some.
  unfold sentiment_of. rewrite lower_capitalize_ascii; [done|].
  rewrite Forall_forall in Hascii. apply Hascii.
  by eapply list_elem_of_lookup_2.
Qed.

Lemma sentiment_of_displayed_label_witness :
  Forall (Forall (fun c => c < 128)) (classes_ env_ref)
  ∧ predict_emotion env_ref (Str (str_of "not good"))
    = Some (str_of "Anger", str_of "Negative", [2 # 5; 1 # 10; 0; 0; 2 # 5; 1 # 10]%Q)
  ∧ str_of "Negative" = sentiment_of env_ref (str_of "Anger").
Proof.
  assert (Forall (Forall (fun c => c < 128)) (classes_ env_ref)) as Hascii
    by by repeat constructor.
  split; [exact Hascii|]. split; [reflexivity|].
  exact (sentiment_of_displayed_label env_ref (Str (str_of "not good")) _ _ _
           Hascii eq_refl).
Defined.

(** X8: a text of ASCII characters without any letter (digits, punctuation,
    white space, or nothing at all) gives the empty clean text, the same as
    a value that is no string, and so the same prediction. *)
Theorem text_without_letters_is_empty (E : env) (s : str) :
  demojize E s = s →
  Forall (fun c => c < 128 ∧ is_az c = false ∧ is_AZ c = false) s →
  preprocess_text E (Str s) = []
  ∧ preprocess_text E (Str s) = preprocess_text E NotStr
  ∧ predict_emotion E (Str s) = predict_emotion E NotStr.
Proof.
  intros Hd Hs.
  assert (preprocess_text E (Str s) = []) as Hempty.
  { unfold preprocess_text, tokenize.
    rewrite split_blank; [done|].
    rewrite normalize_ascii; [|done|by eapply Forall_impl; [exact Hs|intros c []]].
    apply Forall_forall. intros c [Hp Hc]%list_elem_of_filter.
    apply Is_true_true in Hp.
    apply orb_true_iff in Hp as [Haz|Hsp]; [|done].
    unfold replace_colon in Hc.
    apply list_elem_of_fmap in Hc as (d & -> & (e & -> & He)%list_elem_of_fmap).
    rewrite Forall_forall in Hs. destruct (Hs e He) as (_ & Hnl & Hnu).
    unfold ascii_lower in Haz. rewrite Hnu in Haz.
    destruct (e =? COLON); [done|congruence]. }
  split_and!; [done|done|].
  unfold predict_emotion. by rewrite Hempty.
Qed.

Lemma text_without_letters_is_empty_witness :
  demojize env_ref (str_of "12:30 ?!") = str_of "12:30 ?!"
  ∧ Forall (fun c => c < 128 ∧ is_az c = false ∧ is_AZ c = false) (str_of "12:30 ?!")
  ∧ preprocess_text env_ref (Str (str_of "12:30 ?!")) = []
  ∧ preprocess_text env_ref (Str (str_of "12:30 ?!")) = preprocess_text env_ref NotStr
  ∧ predict_emotion env_ref (Str (str_of "12:30 ?!")) = predict_emotion env_ref NotStr.
Proof.
  assert (Forall (fun c => c < 128 ∧ is_az c = false ∧ is_AZ c = false)
            (str_of "12:30 ?!")) as Hs by by repeat constructor.
  split; [reflexivity|]. split; [exact Hs|].
  exact (text_without_letters_is_empty env_ref (str_of "12:30 ?!") eq_refl Hs).
Defined.

(** X9: the preprocessor ignores the case of ASCII letters: two ASCII texts
    without emoji that differ only in the case of their letters get the same
    clean text and the same prediction. *)
Theorem preprocess_ignores_ascii_case (E : env) (s1 s2 : str) :
  demojize E s1 = s1 → demojize E s2 = s2 →
  Forall (fun c => c < 128) s1 → Forall (fun c => c < 128) s2 →
  map ascii_lower s1 = map ascii_lower s2 →
  preprocess_text E (Str s1) = preprocess_text E (Str s2)
  ∧ predict_emotion E (Str s1) = predict_emotion E (Str s2).
Proof.
  intros Hd1 Hd2 Ha1 Ha2 Hsame.
  assert (preprocess_text E (Str s1) = preprocess_text E (Str s2)) as Heq.
  { unfold preprocess_text. by rewrite !normalize_ascii, Hsame by done. }
  split; [done|]. unfold predict_emotion. by rewrite Heq.
Qed.

Lemma preprocess_ignores_ascii_case_witness :
  demojize env_ref (str_of "I am NOT Happy") = str_of "I am NOT Happy"
  ∧ demojize env_ref (str_of "i AM not haPPy") = str_of "i AM not haPPy"
  ∧ Forall (fun c => c < 128) (str_of "I am NOT Happy")
  ∧ Forall (fun c => c < 128) (str_of "i AM not haPPy")
  ∧ map ascii_lower (str_of "I am NOT Happy") = map ascii_lower (str_of "i AM not haPPy")
  ∧ preprocess_text env_ref (Str (str_of "I am NOT Happy"))
    = preprocess_text env_ref (Str (str_of "i AM not haPPy"))
  ∧ predict_emotion env_ref (Str (str_of "I am NOT Happy"))
    = predict_emotion env_ref (Str (str_of "i AM not haPPy")).
Proof.
  assert (Forall (fun c => c < 128) (str_of "I am NOT Happy")) as H1
    by by repeat constructor.
  assert (Forall (fun c => c < 128) (str_of "i AM not haPPy")) as H2
    by by repeat constructor.
  split_and!; [reflexivity|reflexivity|exact H1|exact H2|reflexivity| |];
    by apply (preprocess_ignores_ascii_case env_ref
                (str_of "I am NOT Happy") (str_of "i AM not haPPy")).
Defined.

(** ** The page *)

Lemma lstrip_nil (s : str) : lstrip s = [] ↔ Forall (fun c => isspace c = true) s.
Proof.
  induction s as [|c rest IH]; [by split|].
  cbn [lstrip]. destruct (isspace c) eqn:Hc.
  - rewrite IH. split; [by constructor|by intros [_ ?]%Forall_cons].
  - split; [done|]. intros [? _]%Forall_cons. congruence.
Qed.

Lemma lstrip_head (s : str) :
  lstrip s = [] ∨ ∃ c rest, lstrip s = c :: rest ∧ isspace c = false.
Proof.
  induction s as [|c rest IH]; [by left|].
  cbn [lstrip]. destruct (isspace c) eqn:Hc; [done|]. right. eauto.
Qed.

Lemma strip_nil (s : str) : strip s = [] ↔ Forall (fun c => isspace c = true) s.
Proof.
  rewrite <- lstrip_nil. unfold strip. split.
  - intros H. apply (f_equal reverse) in H. rewrite reverse_involutive in H.
    cbn in H. apply lstrip_nil in H. rewrite Forall_reverse in H.
    destruct (lstrip_head s) as [?|(c & rest & Heq & Hc)]; [done|].
    rewrite Heq in H. apply Forall_cons in H as [? _]. congruence.
  - by intros ->.
Qed.

Lemma lookup_set_default (key key' : string) (v : sval) (ss : gmap string sval) :
  set_default key v ss !! key'
  = if decide (key = key')
    then Some (default v (ss !! key)) else ss !! key'.
Proof.
  unfold set_default. destruct (ss !! key) as [x|] eqn:Hk.
  - case_decide; [by subst|done].
  - case_decide; [subst; by rewrite lookup_insert_eq|by rewrite lookup_insert_ne].
Qed.

Section PageProperties.
Variable E : env.

Lemma set_defaults_ok (ss : gmap string sval) :
  session_ok E ss →
  let ss' := set_default "feedback_submitted" (SBool false)
               (set_default "last_user_input" (SStr []) ss) in
  session_ok E ss'
  ∧ (∃ last, ss' !! "last_user_input" = Some (SStr last))
  ∧ (∃ b, ss' !! "feedback_submitted" = Some (SBool b)).
Proof.
  intros [Hlast Hflag] ss'. subst ss'.
  assert (∃ last, set_default "last_user_input" (SStr []) ss !! "last_user_input"
                  = Some (SStr last)
                  ∧ (last ≠ [] → ss !! "last_user_input" = Some (SStr last)))
    as (last & Hl & Hl').
  { rewrite lookup_set_default, decide_True by done.
    destruct (ss !! "last_user_input") as [v|] eqn:Hv; cbn.
    - destruct (Hlast v eq_refl) as (last & -> & _). eauto.
    - by exists []. }
  assert (∃ b, set_default "feedback_submitted" (SBool false)
                 (set_default "last_user_input" (SStr []) ss) !! "feedback_submitted"
               = Some (SBool b)) as (b & Hb).
  { rewrite lookup_set_default, decide_True by done.
    rewrite lookup_set_default, decide_False by done.
    destruct (ss !! "feedback_submitted") as [v|] eqn:Hv; cbn.
    - destruct (Hflag v eq_refl) as (b & ->). eauto.
    - eauto. }
  split_and!; [|rewrite lookup_set_default, decide_False by done; eauto|eauto].
  split.
  - intros v. rewrite lookup_set_default, decide_False, Hl by done.
    intros [= <-]. exists last. split; [done|]. intros Hne.
    destruct (Hlast _ (Hl' Hne)) as (last' & [= <-] & Hrest).
    destruct (Hrest Hne) as (Hs & emotion & sentiment & probs & Hp & He).
    split; [done|]. exists emotion, sentiment, probs. split; [done|].
    by rewrite !lookup_set_default, !decide_False by done.
  - intros v. rewrite Hb. intros [= <-]. eauto.
Qed.

Lemma analyze_ok (ss ss' : gmap string sval) (text : str) (out : list ui) :
  session_ok E ss →
  analyze E ss text = inr (ss', out) →
  session_ok E ss'
  ∧ (∀ last, ss !! "last_user_input" = Some (SStr last) →
             ∃ last', ss' !! "last_user_input" = Some (SStr last'))
  ∧ (∀ b, ss !! "feedback_submitted" = Some (SBool b) →
          ∃ b', ss' !! "feedback_submitted" = Some (SBool b')).
Proof.
  intros Hok. unfold analyze.
  destruct (decide (strip text = [])) as [Hblank|Hblank].
  { intros [= <- <-]. eauto. }
  destruct (predict_emotion E (Str text)) as [[[emotion sentiment] probs]|] eqn:Hp;
    [|done].
  intros [= <- <-]. split_and!.
  - split.
    + intros v. rewrite lookup_insert_ne, lookup_insert_ne, lookup_insert_eq by done.
      intros [= <-]. exists text. split; [done|]. intros _.
      split; [done|]. exists emotion, sentiment, probs. split; [done|].
      by rewrite lookup_insert_ne, lookup_insert_eq.
    + intros v. rewrite lookup_insert_eq. intros [= <-]. eauto.
  - intros last _. exists text.
    by rewrite lookup_insert_ne, lookup_insert_ne, lookup_insert_eq.
  - intros b _. exists false. by rewrite lookup_insert_eq.
Qed.

Lemma set_flag_ok (ss : gmap string sval) (b : bool) :
  session_ok E ss → session_ok E (<["feedback_submitted" := SBool b]> ss).
Proof.
  intros [Hlast Hflag]. split.
  - intros v. rewrite lookup_insert_ne by done. intros Hv.
    destruct (Hlast v Hv) as (last & -> & Hrest). exists last. split; [done|].
    intros Hne. destruct (Hrest Hne) as (Hs & emotion & sentiment & probs & Hp & He).
    split; [done|]. exists emotion, sentiment, probs.
    by rewrite lookup_insert_ne.
  - intros v. rewrite lookup_insert_eq. intros [= <-]. eauto.
Qed.

Lemma feedback_section_ok (docs : list (gmap string sval))
    (w : world) (out : list ui) (i : widgets) :
  session_ok E (session_state w) →
  (∃ new, collection w = docs ++ new ∧ Forall (feedback_ok E) new) →
  is_Some (session_state w !! "last_user_input") →
  is_Some (session_state w !! "feedback_submitted") →
  session_ok E (session_state (after (feedback_section w out i)))
  ∧ (∃ new, collection (after (feedback_section w out i)) = docs ++ new
            ∧ Forall (feedback_ok E) new)
  ∧ raised (feedback_section w out i) = None.
Proof.
  intros Hok Hdocs [vlast Hvlast] [vflag Hvflag]. unfold feedback_section.
  rewrite Hvlast. destruct (decide (vlast = SStr [])) as [->|Hne]; [done|].
  rewrite Hvflag. destruct (truthy_val vflag); [done|].
  destruct (decide (feedback_radio i = str_of "No")).
  - destruct (submit_correction i); [|done].
    destruct Hok as [Hlast Hflag].
    destruct (Hlast vlast Hvlast) as (last & -> & Hrest).
    destruct Hrest as (Hs & emotion & sentiment & probs & Hp & He); [congruence|].
    rewrite He. cbn [after raised session_state collection].
    split_and!; [by apply set_flag_ok| |done].
    destruct Hdocs as (new & -> & Hnew).
    unfold save_feedback. eexists. rewrite <- app_assoc. split; [done|].
    apply Forall_app. split; [done|]. constructor; [|constructor].
    by exists last, emotion, sentiment, probs, (correction_select i).
  - destruct (submit_confirmed i); [|done].
    cbn [after raised session_state collection].
    split_and!; [by apply set_flag_ok|done|done].
Qed.

Lemma page_run_ok (docs : list (gmap string sval)) (w : world) (i : widgets) :
  session_ok E (session_state w) →
  (∃ new, collection w = docs ++ new ∧ Forall (feedback_ok E) new) →
  session_ok E (session_state (after (page_run E w i)))
  ∧ (∃ new, collection (after (page_run E w i)) = docs ++ new
            ∧ Forall (feedback_ok E) new)
  ∧ ∀ key, raised (page_run E w i) ≠ Some (AttributeError key).
Proof.
  intros Hok Hdocs. unfold page_run.
  destruct (set_defaults_ok (session_state w) Hok) as (Hok' & [last Hlast] & [b Hb]).
  cbv zeta in Hok', Hlast, Hb.
  set (ss := set_default "feedback_submitted" _ _) in *.
  destruct (analyze_button i).
  - destruct (analyze E ss (user_input i)) as [e|[ss' out]] eqn:Ha.
    + cbn. split_and!; [done|done|].
      unfold analyze in Ha. destruct (decide _); [done|].
      destruct (predict_emotion E _) as [[[? ?] ?]|]; [done|].
      injection Ha as <-. done.
    + destruct (analyze_ok ss ss' _ out Hok' Ha) as (Hok'' & Hl & Hf).
      destruct (Hl last Hlast) as [last' Hlast'].
      destruct (Hf b Hb) as [b' Hb'].
      destruct (feedback_section_ok docs (World ss' (collection w)) out i)
        as (H1 & H2 & H3); [done|done|by eexists|by eexists|].
      split_and!; [done|done|]. intros key. by rewrite H3.
  - destruct (feedback_section_ok docs (World ss (collection w)) [] i)
      as (H1 & H2 & H3); [done|done|by eexists|by eexists|].
    split_and!; [done|done|]. intros key. by rewrite H3.
Qed.

Lemma page_runs_ok (docs : list (gmap string sval)) (inputs : list widgets) : ∀ w,
  session_ok E (session_state w) →
  (∃ new, collection w = docs ++ new ∧ Forall (feedback_ok E) new) →
  session_ok E (session_state (page_runs E w inputs))
  ∧ (∃ new, collection (page_runs E w inputs) = docs ++ new
            ∧ Forall (feedback_ok E) new).
Proof.
  induction inputs as [|i inputs IH]; intros w Hok Hdocs; [done|].
  destruct (page_run_ok docs w i Hok Hdocs) as (Hok' & Hdocs' & _).
  by apply IH.
Qed.

Lemma session_ok_empty : session_ok E ∅.
Proof. split; intros v; by rewrite lookup_empty. Qed.

End PageProperties.

(** X10: in a browser session that starts with an empty session state, the
    script never reads a key of the session state that is not there (no run
    raises an attribute error), whatever the widgets return run after run;
    the last input it keeps is never blank unless empty, and it is kept
    with the emotion predicted for it. *)
Theorem session_keys_are_always_set (E : env)
    (docs : list (gmap string sval)) (inputs : list widgets) (i : widgets) :
  session_ok E (session_state (page_runs E (World ∅ docs) inputs))
  ∧ ∀ key, raised (page_run E (page_runs E (World ∅ docs) inputs) i)
           ≠ Some (AttributeError key).
Proof.
  destruct (page_runs_ok E docs inputs (World ∅ docs)) as [Hok Hdocs].
  - apply session_ok_empty.
  - exists []. by rewrite app_nil_r.
  - split; [done|]. by apply (page_run_ok E docs).
Qed.

Section Provenance.
Variable E : env.

Lemma feedback_from_mono (past : list widgets) (i : widgets) doc :
  feedback_from E past doc → feedback_from E (past ++ [i]) doc.
Proof.
  intros (j & i' & emotion & sentiment & probs & Hj & Hi & Hrest).
  exists j, i', emotion, sentiment, probs.
  split_and!; [apply elem_of_app; by left|apply elem_of_app; by left|apply Hrest..].
Qed.

Lemma session_from_mono (past : list widgets) (i : widgets) ss :
  session_from past ss → session_from (past ++ [i]) ss.
Proof.
  intros H last Hl Hne. destruct (H last Hl Hne) as (j & Hj & Hrest).
  exists j. split; [apply elem_of_app; by left|done].
Qed.

Lemma set_defaults_from (past : list widgets) ss :
  session_from past ss →
  session_from past (set_default "feedback_submitted" (SBool false)
                       (set_default "last_user_input" (SStr []) ss)).
Proof.
  intros H last.
  rewrite lookup_set_default, decide_False by done.
  rewrite lookup_set_default, decide_True by done.
  destruct (ss !! "last_user_input") as [v|] eqn:Hv; cbn.
  - intros [= ->]. by apply H.
  - by intros [= <-].
Qed.

Lemma analyze_from (past : list widgets) (i : widgets) ss ss' out :
  session_from past ss →
  analyze_button i = true →
  analyze E ss (user_input i) = inr (ss', out) →
  session_from (past ++ [i]) ss'.
Proof.
  intros H Hbutton. unfold analyze.
  destruct (decide (strip (user_input i) = [])).
  { intros [= <- <-]. by apply session_from_mono. }
  destruct (predict_emotion E (Str (user_input i))) as [[[emotion sentiment] probs]|];
    [|done].
  intros [= <- <-] last.
  rewrite lookup_insert_ne, lookup_insert_ne, lookup_insert_eq by done.
  intros [= <-] _. exists i. split; [apply elem_of_app; right; by left|done].
Qed.

Lemma set_flag_from (past : list widgets) ss (b : bool) :
  session_from past ss →
  session_from past (<["feedback_submitted" := SBool b]> ss).
Proof. intros H last. rewrite lookup_insert_ne by done. apply H. Qed.

Lemma feedback_section_from (docs : list (gmap string sval)) (all : list widgets)
    (w : world) (out : list ui) (i : widgets) :
  i ∈ all →
  session_ok E (session_state w) →
  session_from all (session_state w) →
  (∃ new, collection w = docs ++ new ∧ Forall (feedback_from E all) new) →
  session_from all (session_state (after (feedback_section w out i)))
  ∧ ∃ new, collection (after (feedback_section w out i)) = docs ++ new
           ∧ Forall (feedback_from E all) new.
Proof.
  intros Hi Hok Hfrom Hdocs. unfold feedback_section.
  destruct (session_state w !! "last_user_input") as [vlast|] eqn:Hvlast; [|done].
  destruct (decide (vlast = SStr [])) as [->|Hne]; [done|].
  destruct (session_state w !! "feedback_submitted") as [vflag|]; [|done].
  destruct (truthy_val vflag); [done|].
  destruct (decide (feedback_radio i = str_of "No")) as [Hradio|Hradio].
  - destruct (submit_correction i) eqn:Hsub; [|done].
    destruct Hok as [Hlast _].
    destruct (Hlast vlast Hvlast) as (last & -> & Hrest).
    assert (last ≠ []) as Hlast_ne by congruence.
    destruct (Hrest Hlast_ne) as (Hs & emotion & sentiment & probs & Hp & He).
    destruct (Hfrom last Hvlast Hlast_ne) as (j & Hj & Hbutton & Htext).
    rewrite He. cbn [after session_state collection].
    split; [by apply set_flag_from|].
    destruct Hdocs as (new & -> & Hnew).
    unfold save_feedback. eexists. rewrite <- app_assoc. split; [done|].
    apply Forall_app. split; [done|]. constructor; [|constructor].
    exists j, i, emotion, sentiment, probs. rewrite Htext. by split_and!.
  - destruct (submit_confirmed i); [|done].
    cbn [after session_state collection]. split; [by apply set_flag_from|done].
Qed.

Lemma page_run_from (docs : list (gmap string sval)) (past : list widgets)
    (w : world) (i : widgets) :
  session_ok E (session_state w) →
  session_from past (session_state w) →
  (∃ new, collection w = docs ++ new ∧ Forall (feedback_from E past) new) →
  session_from (past ++ [i]) (session_state (after (page_run E w i)))
  ∧ ∃ new, collection (after (page_run E w i)) = docs ++ new
           ∧ Forall (feedback_from E (past ++ [i])) new.
Proof.
  intros Hok Hfrom (new & Hcoll & Hnew).
  assert (∃ new, collection w = docs ++ new
                 ∧ Forall (feedback_from E (past ++ [i])) new) as Hdocs.
  { exists new. split; [done|].
    eapply Forall_impl; [exact Hnew|]. intros doc. apply feedback_from_mono. }
  assert (i ∈ past ++ [i]) as Hi by (apply elem_of_app; right; by left).
  unfold page_run.
  destruct (set_defaults_ok E (session_state w) Hok) as (Hok' & _ & _).
  pose proof (set_defaults_from past _ Hfrom) as Hfrom'.
  cbv zeta in Hok'.
  set (ss := set_default "feedback_submitted" _ _) in *.
  destruct (analyze_button i) eqn:Hbutton.
  - destruct (analyze E ss (user_input i)) as [e|[ss' out]] eqn:Ha.
    + cbn [after session_state collection].
      split; [by apply session_from_mono|done].
    + destruct (analyze_ok E ss ss' _ out Hok' Ha) as (Hok'' & _ & _).
      apply feedback_section_from; [done|done| |done].
      by eapply analyze_from.
  - apply feedback_section_from; [done|done| |done].
    by apply session_from_mono.
Qed.

Lemma page_runs_from (docs : list (gmap string sval)) (inputs : list widgets) :
  ∀ past w,
    session_ok E (session_state w) →
    session_from past (session_state w) →
    (∃ new, collection w = docs ++ new ∧ Forall (feedback_from E past) new) →
    ∃ new, collection (page_runs E w inputs) = docs ++ new
           ∧ Forall (feedback_from E (past ++ inputs)) new.
Proof.
  induction inputs as [|i inputs IH]; intros past w Hok Hfrom Hdocs.
  - by rewrite app_nil_r.
  - destruct (page_run_from docs past w i Hok Hfrom Hdocs) as [Hfrom' Hdocs'].
    destruct (page_run_ok E (collection w) w i Hok) as (Hok' & _ & _).
    { exists []. by rewrite app_nil_r. }
    change (page_runs E w (i :: inputs))
      with (page_runs E (after (page_run E w i)) inputs).
    rewrite (cons_middle i past inputs), app_assoc.
    by apply IH.
Qed.

End Provenance.

(** X11: every document the page adds to the collection comes from the runs
    of the session: its "Text" is the text of a run in which Analyze was
    pressed on a text that is not blank, its "Predicted" the emotion
    [predict_emotion] returns for that very text, and its "Actual" the value
    of the select box in a run in which the radio was on "No" and the
    correction button pressed; the documents that were there before stay as
    they are, at the front. *)
Theorem feedback_documents_match_predictions (E : env)
    (docs : list (gmap string sval)) (inputs : list widgets) :
  ∃ new,
    collection (page_runs E (World ∅ docs) inputs) = docs ++ new
    ∧ Forall (feedback_from E inputs) new.
Proof.
  apply (page_runs_from E docs inputs [] (World ∅ docs)).
  - apply session_ok_empty.
  - intros last Hlast. cbn [session_state] in Hlast.
    by rewrite lookup_empty in Hlast.
  - exists []. by rewrite app_nil_r.
Qed.

Section Gate.
Variable E : env.





End Gate.


Lemma page_run_other_keys (E : env) (w : world) (i : widgets) (key : string) :
  analyze_button i = false ∨ Forall (fun c => isspace c = true) (user_input i) →
  key ≠ "feedback_submitted"%string →
  session_state (after (page_run E w i)) !! key
  = set_default "last_user_input" (SStr []) (session_state w) !! key.
Proof.
  intros Hno Hkey. unfold page_run.
  set (ss := set_default "feedback_submitted" _ _).
  assert (ss !! key = set_default "last_user_input" (SStr []) (session_state w) !! key)
    as Hss.
  { unfold ss. by rewrite lookup_set_default, decide_False. }
  assert (∀ out,
            session_state (after (feedback_section (World ss (collection w)) out i)) !! key
            = ss !! key) as Hsection.
  { intros out. unfold feedback_section. cbn [session_state].
    destruct (ss !! "last_user_input") as [vlast|]; [|done].
    destruct (decide (vlast = SStr [])); [done|].
    destruct (ss !! "feedback_submitted") as [vflag|]; [|done].
    destruct (truthy_val vflag); [done|].
    destruct (decide (feedback_radio i = str_of "No")).
    - destruct (submit_correction i); [|done].
      destruct (ss !! "last_predicted_emotion"); [|done].
      cbn [after session_state]. by rewrite lookup_insert_ne.
    - destruct (submit_confirmed i); [|done].
      cbn [after session_state]. by rewrite lookup_insert_ne. }
  rewrite <- Hss.
  destruct (analyze_button i) eqn:Hbutton; [|apply Hsection].
  destruct Hno as [?|Hblank]; [done|].
  unfold analyze. rewrite decide_True by by apply strip_nil.
  apply Hsection.
Qed.

(** X13: only a successful analysis changes what the session keeps about the
    last input: after a run in which the Analyze button is not pressed, or
    is pressed on a blank text, last_user_input holds what it held (the
    empty string if it was not set) and last_predicted_emotion is as it
    was, set or not. *)
Theorem blank_input_changes_nothing (E : env) (w : world) (i : widgets) :
  analyze_button i = false ∨ Forall (fun c => isspace c = true) (user_input i) →
  session_state (after (page_run E w i)) !! "last_user_input"
  = Some (default (SStr []) (session_state w !! "last_user_input"))
  ∧ session_state (after (page_run E w i)) !! "last_predicted_emotion"
    = session_state w !! "last_predicted_emotion".
Proof.
  intros Hno. rewrite !page_run_other_keys by done.
  rewrite lookup_set_default, decide_True by done.
  by rewrite lookup_set_default, decide_False.
Qed.


Lemma blank_input_changes_nothing_witness :
  let analysed :=
    after (page_run env_ref (World ∅ [])
             (Widgets (str_of "not good") true (str_of "Yes") (str_of "Love") false false)) in
  let blank := Widgets [SPACE; 9; SPACE] true (str_of "No") (str_of "Joy") true false in
  (analyze_button blank = false ∨ Forall (fun c => isspace c = true) (user_input blank))
  ∧ session_state (after (page_run env_ref analysed blank)) !! "last_user_input"
    = Some (SStr (str_of "not good"))
  ∧ session_state (after (page_run env_ref analysed blank)) !! "last_predicted_emotion"
    = Some (SStr (str_of "Anger")).
Proof.
  intros analysed blank.
  assert (Forall (fun c => isspace c = true) (user_input blank)) as Hblank
    by by repeat constructor.
  split; [by right|].
  exact (blank_input_changes_nothing env_ref analysed blank (or_intror Hblank)).
Defined.

(** A session on the reference environment: an analysis, a correction sent
    twice, a confirmation; one document is stored. *)
Example page_session_ref :
  collection
    (page_runs env_ref (World ∅ [])
       [Widgets (str_of "not good") true (str_of "Yes") (str_of "Love") false false;
        Widgets (str_of "changed") false (str_of "No") (str_of "Joy") true false;
        Widgets (str_of "changed") false (str_of "No") (str_of "Sad") true false;
        Widgets (str_of "changed") false (str_of "Yes") (str_of "Sad") false true])
  = [<["Actual" := SStr (str_of "Joy")]>
       (<["Predicted" := SStr (str_of "Anger")]>
          {["Text" := SStr (str_of "not good")]})].
Proof. by vm_compute. Qed.
